(** * Student Support Concierge: a shallow embedding of the agent core

    The development follows the Python package [student_support]:
    - [PyStr]        the string operations of Python the code relies on
    - [MemoryStore]  memory.py, the file-backed session store
    - [Tools]        tools.py, student-record lookup and the FAQ search stub
    - [Agents]       agents.py, leaf agents, ParallelAgent, SequentialAgent
    - [LongRunning]  longrunning.py, the job manager
    - [Main]         main.py, LOCAL_KB, best_kb_match and the generic-reply test

    Text is modelled as [string], whose characters are the code points
    0..255 (Latin-1); on such text the operations below agree with
    Python's [str] methods.  Exceptions are values of [exn]; a call that
    may raise returns [res]. *)

From Stdlib Require Import ZArith NArith QArith Ascii String List Bool Lia.
From Stdlib Require Import DecimalString DecimalN.
From stdpp Require Import base option list gmap strings.

Local Open Scope string_scope.
Local Open Scope list_scope.

(* ===================================================================== *)
(** * Part I: definitions                                                 *)
(* ===================================================================== *)

(** ** Exceptions and results *)

Inductive exn_kind : Type :=
| TypeError
| KeyError
| NotImplementedError.

(** An exception object of a class derived from [Exception], which is
    what [except Exception] catches.  [exn_str] is what Python's
    [str(e)] (and so [f"{e}"]) renders. *)
Record exn : Type := Exn { exn_of : exn_kind; exn_str : string }.

Inductive res (A : Type) : Type :=
| Ok (a : A)
| Raise (e : exn).
Arguments Ok {A} a.
Arguments Raise {A} e.

Definition returns {A : Type} (m : res A) : Prop := exists a, m = Ok a.

(** [None["username"]] *)
Definition NoneType_subscript : exn :=
  Exn TypeError "'NoneType' object is not subscriptable".

(** [KeyError("unknown session")]; [str] of a KeyError is the repr of its
    argument, quotes included. *)
Definition unknown_session : exn := Exn KeyError "'unknown session'".

(** ** Python string operations *)

Module PyStr.

Definition code (c : ascii) : N := N_of_ascii c.

Definition between (lo hi n : N) : bool := ((lo <=? n) && (n <=? hi))%N.

(** [str.lower] on one character: A-Z and the Latin-1 capitals. *)
Definition lower_char (c : ascii) : ascii :=
  let n := code c in
  if between 65 90 n || (between 192 222 n && negb (n =? 215)%N)
  then ascii_of_N (n + 32)
  else c.

Fixpoint lower (s : string) : string :=
  match s with
  | EmptyString => EmptyString
  | String c s' => String (lower_char c) (lower s')
  end.

(** [str.isspace], which is also the regular expression class [\s]. *)
Definition is_space (c : ascii) : bool :=
  let n := code c in
  between 9 13 n || between 28 32 n || (n =? 133)%N || (n =? 160)%N.

(** The regular expression class [\w]. *)
Definition is_word (c : ascii) : bool :=
  let n := code c in
  between 48 57 n || between 65 90 n || (n =? 95)%N || between 97 122 n
  || (n =? 170)%N || between 178 179 n || (n =? 181)%N
  || between 185 186 n || between 188 190 n
  || between 192 214 n || between 216 246 n || between 248 255 n.

Definition to_list (s : string) : list ascii := list_ascii_of_string s.
Definition of_list (l : list ascii) : string := string_of_list_ascii l.

Definition flush (cur : list ascii) : list string :=
  match cur with
  | [] => []
  | _ => [of_list (rev cur)]
  end.

(** [s.split()]: the maximal runs of non-whitespace characters.  [cur]
    holds the current run, most recent character first. *)
Fixpoint split_go (cur : list ascii) (s : string) : list string :=
  match s with
  | EmptyString => flush cur
  | String c s' =>
      if is_space c then flush cur ++ split_go [] s'
      else split_go (c :: cur) s'
  end.

Definition split (s : string) : list string := split_go [] s.

Fixpoint lstrip (s : string) : string :=
  match s with
  | EmptyString => EmptyString
  | String c s' => if is_space c then lstrip s' else s
  end.

Definition rstrip (s : string) : string :=
  of_list (rev (to_list (lstrip (of_list (rev (to_list s)))))).

(** [s.strip()] *)
Definition strip (s : string) : string := rstrip (lstrip s).

(** [s.startswith(p)] *)
Fixpoint startswith (s p : string) : bool :=
  match p, s with
  | EmptyString, _ => true
  | String _ _, EmptyString => false
  | String a p', String b s' => Ascii.eqb a b && startswith s' p'
  end.

(** [s.endswith(p)] *)
Definition endswith (s p : string) : bool :=
  startswith (of_list (rev (to_list s))) (of_list (rev (to_list p))).

(** [sub in s] *)
Fixpoint contains (sub s : string) : bool :=
  startswith s sub ||
  match s with
  | EmptyString => false
  | String _ s' => contains sub s'
  end.

(** [s.replace(old, new)] for a non-empty [old]: occurrences are found
    left to right and do not overlap.  [skip] counts the characters of
    the occurrence being replaced that are still to be passed over. *)
Fixpoint replace_go (old new : string) (skip : nat) (s : string) : string :=
  match s with
  | EmptyString => EmptyString
  | String c s' =>
      match skip with
      | S k => replace_go old new k s'
      | O =>
          if startswith s old
          then new +:+ replace_go old new (String.length old - 1) s'
          else String c (replace_go old new O s')
      end
  end.

Definition replace (s old new : string) : string := replace_go old new O s.

(** [s.removesuffix(p)] *)
Definition removesuffix (s p : string) : string :=
  if endswith s p
  then String.substring 0 (String.length s - String.length p) s
  else s.

(** [p] occurs in [t] as a run of consecutive characters. *)
Definition occurs_in (p t : string) : Prop :=
  exists pre post, t = pre +:+ p +:+ post.

(** [sep.join(parts)] *)
Fixpoint join (sep : string) (parts : list string) : string :=
  match parts with
  | [] => EmptyString
  | [p] => p
  | p :: rest => p +:+ sep +:+ join sep rest
  end.

(** [re.sub(r"[^\w\s]", " ", t)] *)
Fixpoint sub_nonword (s : string) : string :=
  match s with
  | EmptyString => EmptyString
  | String c s' =>
      String (if is_word c || is_space c then c else " "%char) (sub_nonword s')
  end.

(** [re.sub(r"\s+", " ", t)]: [in_run] tells whether the previous
    character was whitespace, in which case the run has been replaced
    already. *)
Fixpoint sub_spaces_go (in_run : bool) (s : string) : string :=
  match s with
  | EmptyString => EmptyString
  | String c s' =>
      if is_space c
      then (if in_run then sub_spaces_go true s'
            else String " "%char (sub_spaces_go true s'))
      else String c (sub_spaces_go false s')
  end.

Definition sub_spaces (s : string) : string := sub_spaces_go false s.

(** [str(n)] for a non-negative integer. *)
Definition str_of_N (n : N) : string := NilEmpty.string_of_uint (N.to_uint n).

(** [str(z)] for any integer. *)
Definition str_of_Z (z : Z) : string :=
  match z with
  | Zneg p => "-" +:+ str_of_N (Npos p)
  | _ => str_of_N (Z.to_N z)
  end.

(** Truthiness of a string: [if s:]. *)
Definition truthy (s : string) : bool :=
  match s with
  | EmptyString => false
  | _ => true
  end.

End PyStr.

(** ** memory.py *)

Module MemoryStore.

(** A clock reading of [datetime.utcnow()], in microseconds since the
    epoch.  The ISO rendering of a reading is not modelled: records keep
    the reading itself. *)
Definition time := N.

(** The integer [int(datetime.utcnow().timestamp())] that a call of
    [create_session] computes.  [utcnow()] gives a naive datetime and
    [timestamp()] reads a naive datetime as local time, so the integer
    depends on the time zone of the process as well as on the clock,
    and it is not one-to-one in the clock reading (two readings an hour
    apart around a daylight-saving change give the same integer).  It
    is therefore an input of the call; two calls whose readings fall in
    the same second compute the same integer. *)
Definition stamp := Z.

(** One element of a session's ["history"] list. *)
Record entry : Type := Entry {
  ts : time;
  role : string;
  text : string
}.

(** One value of [_data["sessions"]]. *)
Record session : Type := Session {
  username : string;
  history : list entry;
  state : gmap string string;
  created : time
}.

(** [_data] *)
Record data : Type := Data {
  sessions : gmap string session;
  long_term : gmap string string;
  globals : gmap string string
}.

(** The object: [_data] in memory and the contents of MEMORY_FILE. *)
Record t : Type := Store {
  _data : data;
  file : data
}.

Definition empty_data : data := Data ∅ ∅ ∅.

(** [__init__] when MEMORY_FILE does not exist. *)
Definition init : t := Store empty_data empty_data.

(** [_flush]: the file is rewritten from [_data]. *)
Definition _flush (m : t) : t := Store (_data m) (_data m).

Definition with_sessions (m : t) (ss : gmap string session) : t :=
  Store (Data ss (long_term (_data m)) (globals (_data m))) (file m).

(** [l[-10:]] *)
Definition last10 {A : Type} (l : list A) : list A :=
  drop (length l - 10) l.

(** [f"sess_{username}_{int(datetime.utcnow().timestamp())}"] *)
Definition session_id (user : string) (n : stamp) : string :=
  "sess_" +:+ user +:+ "_" +:+ PyStr.str_of_Z n.

(** [create_session]: [n] is the integer that goes into the id, [now']
    the clock reading stored under ["created"].  An existing record
    under the same id is replaced. *)
Definition create_session (m : t) (user : string) (n : stamp) (now' : time)
  : string * t :=
  let sid := session_id user n in
  let s := Session user [] ∅ now' in
  (sid, _flush (with_sessions m (<[sid := s]> (sessions (_data m))))).

(** [append_history]; [now] is the clock reading for the entry.  When
    the call raises, nothing has been changed. *)
Definition append_history (m : t) (sid : string) (now : time)
  (r txt : string) : res t :=
  match sessions (_data m) !! sid with
  | None => Raise unknown_session
  | Some s =>
      let h := history s ++ [Entry now r txt] in
      let s' := Session (username s) (last10 h) (state s) (created s) in
      Ok (_flush (with_sessions m (<[sid := s']> (sessions (_data m)))))
  end.

(** [get_session] *)
Definition get_session (m : t) (sid : string) : option session :=
  sessions (_data m) !! sid.

(** [set_session_field]: a session record always has its four keys, so
    [not s] holds only for [None]. *)
Definition set_session_field (m : t) (sid key value : string) : res t :=
  match sessions (_data m) !! sid with
  | None => Raise unknown_session
  | Some s =>
      let s' := Session (username s) (history s) (<[key := value]> (state s))
                        (created s) in
      Ok (_flush (with_sessions m (<[sid := s']> (sessions (_data m)))))
  end.

(** [n] calls of [append_history] in a row, one per element of [es]. *)
Fixpoint append_all (m : t) (sid : string) (es : list entry) : res t :=
  match es with
  | [] => Ok m
  | e :: es' =>
      match append_history m sid (ts e) (role e) (text e) with
      | Ok m' => append_all m' sid es'
      | Raise x => Raise x
      end
  end.

Definition with_long_term (m : t) (lt : gmap string string) : t :=
  Store (Data (sessions (_data m)) lt (globals (_data m))) (file m).

Definition with_globals (m : t) (g : gmap string string) : t :=
  Store (Data (sessions (_data m)) (long_term (_data m)) g) (file m).

(** [set_long_term] *)
Definition set_long_term (m : t) (key value : string) : t :=
  _flush (with_long_term m (<[key := value]> (long_term (_data m)))).

(** [get_long_term] *)
Definition get_long_term (m : t) (key : string) : option string :=
  long_term (_data m) !! key.

(** [set_global] *)
Definition set_global (m : t) (key value : string) : t :=
  _flush (with_globals m (<[key := value]> (globals (_data m)))).

(** [get_global] *)
Definition get_global (m : t) (key : string) : option string :=
  globals (_data m) !! key.

(** A call of one of the methods that write to the store. *)
Inductive call : Type :=
| CreateSession (user : string) (n : stamp) (now' : time)
| AppendHistory (sid : string) (now : time) (r txt : string)
| SetSessionField (sid key value : string)
| SetLongTerm (key value : string)
| SetGlobal (key value : string).

(** The store after a call; a call that raises leaves it as it was. *)
Definition after (m : t) (c : call) : t :=
  match c with
  | CreateSession user n now' => snd (create_session m user n now')
  | AppendHistory sid now r txt =>
      match append_history m sid now r txt with Ok m' => m' | Raise _ => m end
  | SetSessionField sid key value =>
      match set_session_field m sid key value with Ok m' => m' | Raise _ => m end
  | SetLongTerm key value => set_long_term m key value
  | SetGlobal key value => set_global m key value
  end.

(** All sessions of a store hold at most 10 entries. *)
Definition bounded (m : t) : Prop :=
  forall sid s, get_session m sid = Some s -> length (history s) <= 10.

(** The history list after the appends of [es] to the history [h],
    append by append. *)
Definition compacted (h : list entry) (es : list entry) : list entry :=
  foldl (fun h e => last10 (h ++ [e])) h es.

End MemoryStore.

(** ** tools.py *)

Module Tools.

(** One row of the student table: column name to value. *)
Definition record := gmap string string.

(** [Tools.student_db] *)
Definition student_db := gmap string record.

(** [csv_lookup] *)
Definition csv_lookup (db : student_db) (user : string) : record :=
  if PyStr.truthy user then default ∅ (db !! user) else ∅.

(** [_normalize] *)
Definition _normalize (txt : string) : string :=
  PyStr.strip (PyStr.sub_spaces (PyStr.sub_nonword (PyStr.lower txt))).

(** The table [faqs] of [google_search], in insertion order. *)
Definition faqs : list (string * string) :=
  [ ("how to take exam", "Open LockDown Browser, go to module, click Start Exam.");
    ("ms365", "Sign in at portal.office.com using your college email.");
    ("how to login", "Use your college username and password; reset via the portal if needed.") ].

(** [set(s.split())], kept as a duplicate-free list. *)
Definition token_set (s : string) : list string := remove_dups (PyStr.split s).

(** The query's tokens hold every token of the key, which has some. *)
Definition covers (qtokens : list string) (k : string) : Prop :=
  token_set (_normalize k) <> [] /\
  forall t, t ∈ token_set (_normalize k) -> t ∈ qtokens.

(** [len(qtokens & ktoks)] *)
Definition overlap (qtokens ktoks : list string) : nat :=
  length (filter (λ tok, tok ∈ ktoks) qtokens).

(** [score > best_score], [score == 1.0], [best_score >= 0.5]: scores
    are quotients of two token counts, compared here as rationals. *)
Definition Qgt_bool (x y : Q) : bool := negb (Qle_bool x y).

(** The scoring loop of [google_search].  [inl v] is the early
    [return v] on a full overlap; [inr] is the loop running to its end
    with [(best_score, best_answer)]. *)
Fixpoint score_loop (qtokens : list string) (table : list (string * string))
  (best_score : Q) (best_answer : option string) : string + Q * option string :=
  match table with
  | [] => inr (best_score, best_answer)
  | (k, v) :: rest =>
      let ktoks := token_set (_normalize k) in
      match ktoks with
      | [] => score_loop qtokens rest best_score best_answer
      | _ =>
          let score :=
            (Z.of_nat (overlap qtokens ktoks)
             # Pos.of_nat (Nat.max (length ktoks) 1))%Q in
          let '(bs, ba) :=
            if Qgt_bool score best_score then (score, Some v)
            else (best_score, best_answer) in
          if Qeq_bool score 1 then inl v
          else score_loop qtokens rest bs ba
      end
  end.

(** The substring fallback loop of [google_search]. *)
Fixpoint substring_loop (qnorm : string) (table : list (string * string))
  : option string :=
  match table with
  | [] => None
  | (k, v) :: rest =>
      if PyStr.contains (_normalize k) qnorm then Some v
      else substring_loop qnorm rest
  end.

(** [google_search] *)
Definition google_search (query : string) : string :=
  let qnorm := _normalize query in
  if negb (PyStr.truthy qnorm) then "No query provided."
  else
    match score_loop (token_set qnorm) faqs 0 None with
    | inl v => v
    | inr (best_score, best_answer) =>
        match best_answer with
        | Some v =>
            if Qle_bool (1 # 2) best_score && PyStr.truthy v then v
            else default "No direct FAQ hit. Try specifics or provide username."
                         (substring_loop qnorm faqs)
        | None =>
            default "No direct FAQ hit. Try specifics or provide username."
                    (substring_loop qnorm faqs)
        end
    end.

End Tools.

(** ** root_agent.py: the language-model client *)

Module GeminiLLM.

(** [_mock_response] *)
Definition _mock_response (prompt : string) : string :=
  let p := PyStr.lower prompt in
  if PyStr.contains "orientation" p then
    "Follow the LMS orientation module and complete the orientation steps."
  else if PyStr.contains "lockdown" p then
    "Install LockDown Browser and follow your course's exam instructions."
  else if PyStr.contains "ms365" p || PyStr.contains "office" p then
    "Sign in at portal.office.com using your college email."
  else "(Mock) I don't have Gemini access here. You asked: " +:+ prompt.

(** [generate] of a client that is not available: the first branch of
    the method. *)
Definition generate_unavailable (prompt : string) : res string :=
  Ok (_mock_response prompt).

End GeminiLLM.

(** ** agents.py *)

Module Agents.

(** What [agent.handle(sid, message)] does for one agent object whose
    collaborators are fixed: it returns a string or raises an exception
    derived from [Exception] (for the other exceptions, which matter in
    the threads of a parallel composite only, see [outcome]). *)
Definition handler := string -> string -> res string.

(** The three attributes of [BaseAgent].  [llm] is any object with a
    [generate] method; [memory] is the store as it is when [handle]
    runs (no leaf agent writes to it). *)
Record base : Type := Base {
  llm : string -> res string;
  student_db : Tools.student_db;
  memory : MemoryStore.t
}.

(** [BaseAgent.handle] *)
Definition BaseAgent_handle : handler :=
  fun _ _ => Raise (Exn NotImplementedError "").

(** [self.memory.get_session(sid)["username"]] *)
Definition session_username (b : base) (sid : string) : res string :=
  match MemoryStore.get_session (memory b) sid with
  | None => Raise NoneType_subscript
  | Some s => Ok (MemoryStore.username s)
  end.

(** [OrientationAgent.handle] *)
Definition OrientationAgent (b : base) : handler :=
  fun sid message =>
    match session_username b sid with
    | Raise e => Raise e
    | Ok user =>
        let rec := Tools.csv_lookup (student_db b) user in
        if String.eqb (PyStr.lower (default "no" (rec !! "orientation_done"))) "yes"
        then Ok "You have completed the orientation. Check the Orientation module for your certificate."
        else llm b ("orientation steps for user " +:+ user +:+ ": " +:+ message)
    end.

(** [TechSupportAgent.handle] *)
Definition TechSupportAgent (b : base) : handler :=
  fun sid message =>
    let m := PyStr.lower message in
    if PyStr.contains "lockdown" m || PyStr.contains "respondus" m then
      llm b "lockdown browser steps"
    else if PyStr.contains "ms365" m || PyStr.contains "office" m then
      Ok (Tools.google_search "ms365")
    else if PyStr.contains "can't login" m || PyStr.contains "forgot password" m then
      Ok "Try resetting your password via the college portal password reset flow. If that fails, contact helpdesk@example.com."
    else llm b message.

(** [ProgressAgent.handle] *)
Definition ProgressAgent (b : base) : handler :=
  fun sid message =>
    let m := PyStr.lower message in
    if PyStr.contains "access code" m then
      match session_username b sid with
      | Raise e => Raise e
      | Ok user =>
          let rec := Tools.csv_lookup (student_db b) user in
          match rec !! "access_codes" with
          | Some c =>
              if PyStr.truthy c then Ok ("Your access code: " +:+ c)
              else Ok "No access code on file. Please verify username."
          | None => Ok "No access code on file. Please verify username."
          end
      end
    else if existsb (fun tok => PyStr.contains tok m)
                    ["activated"; "activate"; "course status"; "activated?"] then
      Ok "I can check your course activation status if you give me the course name."
    else llm b message.

(** [FAQAgent.handle] *)
Definition FAQAgent (b : base) : handler :=
  fun sid message => Ok (Tools.google_search message).

(** The separator of [ParallelAgent.handle]. *)
Definition separator : string := String "010" (String "-" (String "-" (String "-" (String "010" EmptyString)))).

(** [run_agent], up to its append: what the thread of one member puts
    into [results]. *)
Definition run_agent (sid message : string) (a : handler) : string :=
  match a sid message with
  | Ok r => r
  | Raise e => "Agent error: " +:+ exn_str e
  end.

(** The threads of [ParallelAgent.handle] between [start] and [join].
    Every thread appends once, under the lock; which of the running
    threads appends next is not determined.  [joined running results
    final]: from the threads [running] (each given by what it will
    append, in start order) and the list [results] so far, the list can
    be [final] once all threads have been joined. *)
Inductive joined : list string -> list string -> list string -> Prop :=
| joined_all results :
    joined [] results results
| joined_append before r after results final :
    joined (before ++ after) (results ++ [r]) final ->
    joined (before ++ r :: after) results final.

(** [ParallelAgent.handle]: [out] is a possible return value. *)
Definition ParallelAgent_handle (agents : list handler) (sid message out : string)
  : Prop :=
  exists results,
    joined (map (run_agent sid message) agents) [] results /\
    out = PyStr.join separator results.

(** What the call [agent.handle(sid, message)] of a member can do in
    its thread.  A [handler] has the first two outcomes; the third is an
    exception of a class outside [Exception] ([SystemExit],
    [KeyboardInterrupt], [GeneratorExit]), which [except Exception] in
    [run_agent] lets through. *)
Inductive outcome : Type :=
| Returned (r : string)
| RaisedException (e : exn)
| RaisedOther.

(** A member of a parallel composite, whatever it may raise. *)
Definition member := string -> string -> outcome.

Definition as_member (a : handler) : member :=
  fun sid message =>
    match a sid message with
    | Ok r => Returned r
    | Raise e => RaisedException e
    end.

(** [run_agent] for any member: what its thread appends to [results].
    When the exception passes the handler the thread ends there and
    appends nothing. *)
Definition appended (sid message : string) (a : member) : option string :=
  match a sid message with
  | Returned r => Some r
  | RaisedException e => Some ("Agent error: " +:+ exn_str e)
  | RaisedOther => None
  end.

(** [o] is what the member [a] contributes to the output: its result,
    the error text when its [handle] raised an exception derived from
    [Exception], nothing when it raised another one. *)
Definition contributes (sid message : string) (a : member) (o : option string)
  : Prop :=
  match a sid message with
  | Returned r => o = Some r
  | RaisedException e => o = Some ("Agent error: " +:+ exn_str e)
  | RaisedOther => o = None
  end.

(** [ParallelAgent.handle] for any members: [out] is a possible return
    value.  [join] returns for every thread, however it ended, so
    the call returns whatever the members raise. *)
Definition ParallelAgent_run (agents : list member) (sid message out : string)
  : Prop :=
  exists results,
    joined (omap (appended sid message) agents) [] results /\
    out = PyStr.join separator results.

(** [SequentialAgent.handle] *)
Fixpoint SequentialAgent (agents : list handler) (sid state : string)
  : res string :=
  match agents with
  | [] => Ok state
  | a :: rest =>
      match a sid state with
      | Ok state' => SequentialAgent rest sid state'
      | Raise e => Raise e
      end
  end.

(** *** The objects of [build_root_agent] *)

(** The student table that [load_student_db] writes when there is none. *)
Definition default_student_db : Tools.student_db :=
  {[ "alice" := {[ "username" := "alice"; "email" := "alice@example.com";
                   "orientation_done" := "yes"; "access_codes" := "AC-111" ]};
     "bob" := {[ "username" := "bob"; "email" := "bob@example.com";
                 "orientation_done" := "no"; "access_codes" := "AC-222" ]} ]}.

(** The collaborators [build_root_agent] makes when Gemini is not
    available, with one session for bob in the store. *)
Definition demo_base : base :=
  Base GeminiLLM.generate_unavailable default_student_db
       (snd (MemoryStore.create_session MemoryStore.init "bob" 1%Z 1000010%N)).

End Agents.

(** ** longrunning.py *)

Module LongRunning.

(** [LongRunningManager].  A job is a Python dict shared between the
    table [jobs] and the closure of its thread, so the dicts live in a
    heap ([objects], indexed by reference; only the ["status"] field is
    kept) and the table maps a job id to a reference. *)
Record manager : Type := Manager {
  jobs : gmap string nat;
  objects : list string
}.

(** [__init__] *)
Definition init : manager := Manager ∅ [].

Definition set_status (m : manager) (ref : nat) (st : string) : manager :=
  Manager (jobs m) (<[ref := st]> (objects m)).

(** [start_job]: a fresh dict with status ["running"] is put in the
    table and its thread is started.  The thread runs beside the
    caller: what it writes at its end is the event [wrapper_end], which
    may come at any time after the table was written, also before
    [start_job] has returned. *)
Definition start_job (m : manager) (job_id : string) : string * manager :=
  let ref := length (objects m) in
  (job_id, Manager (<[job_id := ref]> (jobs m)) (objects m ++ ["running"])).

(** How the call of [target] in [wrapper] ends: it returns, it raises
    an exception derived from [Exception], or it raises one that is not
    ([SystemExit], [KeyboardInterrupt], ...), which [except Exception]
    does not catch. *)
Inductive target_end : Type :=
| returned
| raised_Exception
| raised_other.

(** What [wrapper] writes to [job["status"]]: "done" after the call,
    "failed" in the handler, and nothing when the exception passes the
    handler and ends the thread. *)
Definition written (e : target_end) : option string :=
  match e with
  | returned => Some "done"
  | raised_Exception => Some "failed"
  | raised_other => None
  end.

(** The end of [wrapper] in the thread of the job object [ref]. *)
Definition wrapper_end (m : manager) (ref : nat) (e : target_end) : manager :=
  match written e with
  | Some st => set_status m ref st
  | None => m
  end.

(** [pause_job] *)
Definition pause_job (m : manager) (job_id : string) : bool * manager :=
  match jobs m !! job_id with
  | Some ref => (true, set_status m ref "paused")
  | None => (false, m)
  end.

(** [resume_job] *)
Definition resume_job (m : manager) (job_id : string) : bool * manager :=
  match jobs m !! job_id with
  | Some ref =>
      if bool_decide (objects m !! ref = Some "paused")
      then (true, set_status m ref "running")
      else (false, m)
  | None => (false, m)
  end.

(** [get_status] *)
Definition get_status (m : manager) (job_id : string) : string :=
  match jobs m !! job_id with
  | None => "not_found"
  | Some ref => default "unknown" (objects m !! ref)
  end.

(** What can happen to a manager: calls of its methods and the ends of
    job threads. *)
Inductive event : Type :=
| Start (job_id : string)
| Pause (job_id : string)
| Resume (job_id : string)
| WrapperEnd (ref : nat) (e : target_end).

Definition step (m : manager) (ev : event) : manager :=
  match ev with
  | Start job_id => snd (start_job m job_id)
  | Pause job_id => snd (pause_job m job_id)
  | Resume job_id => snd (resume_job m job_id)
  | WrapperEnd ref e => wrapper_end m ref e
  end.

Definition run (m : manager) (evs : list event) : manager :=
  foldl step m evs.

(** The event is a call for the id [job_id] or the end of the thread of
    the job object [ref]. *)
Definition touches (job_id : string) (ref : nat) (ev : event) : bool :=
  match ev with
  | Start j | Pause j | Resume j => String.eqb j job_id
  | WrapperEnd r _ => Nat.eqb r ref
  end.

(** None of the events is a call for [job_id] or the end of the thread
    of [ref]. *)
Definition untouched (job_id : string) (ref : nat) (evs : list event) : Prop :=
  forallb (fun ev => negb (touches job_id ref ev)) evs = true.

(** The status strings the manager writes. *)
Definition statuses : list string := ["running"; "paused"; "done"; "failed"].

(** What holds of a manager however it was driven: references in the
    table point into the heap, two ids never share a job object, and
    the heap holds the manager's own status strings only. *)
Definition wf (m : manager) : Prop :=
  (forall job_id ref, jobs m !! job_id = Some ref -> ref < length (objects m)) /\
  (forall id1 id2 ref,
      jobs m !! id1 = Some ref -> jobs m !! id2 = Some ref -> id1 = id2) /\
  (forall st, st ∈ objects m -> st ∈ statuses).

End LongRunning.

(** ** difflib.SequenceMatcher *)

Module Difflib.

(** Modelled from Python's standard library, which main.py calls as
    [difflib.SequenceMatcher(None, a, b).ratio()]: no junk predicate,
    and a second sequence shorter than 200 elements, so that no element
    is dropped as popular and the extension loops at the end of
    [find_longest_match] have nothing to add. *)

(** [(besti, bestj, bestsize)] *)
Definition block := (nat * nat * nat)%type.

(** [newj2len] for one [i], as the list of its values at j = 0, 1, ...
    (0 where the dict has no key). *)
Definition new_row (ai : ascii) (b : list ascii) (blo bhi : nat)
  (j2len : list nat) : list nat :=
  imap (fun j bj =>
          if (blo <=? j)%nat && (j <? bhi)%nat && Ascii.eqb ai bj
          then S (match j with O => O | S j' => nth j' j2len O end)
          else O) b.

(** The updates of the best block while [j] runs over one row. *)
Definition update_best (i : nat) (row : list nat) (best : block) : block :=
  foldl (fun bst jk =>
           let '(j, k) := jk in
           let '(_, _, bestsize) := bst in
           if (bestsize <? k)%nat then (i + 1 - k, j + 1 - k, k)%nat else bst)
        best (imap (fun j k => (j, k)) row).

(** [find_longest_match(alo, ahi, blo, bhi)] *)
Definition find_longest_match (a b : list ascii) (alo ahi blo bhi : nat)
  : block :=
  fst (foldl (fun st i =>
                let '(best, j2len) := st in
                match a !! i with
                | Some ai =>
                    let row := new_row ai b blo bhi j2len in
                    (update_best i row best, row)
                | None => st
                end)
             ((alo, blo, O), []) (seq alo (ahi - alo))).

(** The sum of the sizes of the matching blocks that
    [get_matching_blocks] collects from the range it is given; [fuel]
    bounds the depth of the splitting. *)
Fixpoint matches (fuel : nat) (a b : list ascii) (alo ahi blo bhi : nat)
  : nat :=
  match fuel with
  | O => O
  | S fuel' =>
      let '(i, j, k) := find_longest_match a b alo ahi blo bhi in
      match k with
      | O => O
      | _ =>
          (k
           + (if (alo <? i) && (blo <? j)
              then matches fuel' a b alo i blo j else O)
           + (if (i + k <? ahi) && (j + k <? bhi)
              then matches fuel' a b (i + k) ahi (j + k) bhi else O))%nat
      end
  end.

(** [ratio()]: [2.0 * matches / length], and 1.0 for two empty
    sequences; the quotient is kept exact. *)
Definition ratio (a b : string) : Q :=
  let la := String.length a in
  let lb := String.length b in
  match (la + lb)%nat with
  | O => 1
  | S _ =>
      (Z.of_nat (2 * matches (S la) (PyStr.to_list a) (PyStr.to_list b) 0 la 0 lb)
       # Pos.of_nat (la + lb))%Q
  end.

End Difflib.

(** ** main.py *)

Module Main.

(** One knowledge-base entry, [{"q": ..., "a": ...}]. *)
Record kb_entry : Type := KB { q : string; a : string }.

(** [LOCAL_KB], in insertion order.  The answers are only ever handed
    back, so their characters outside Latin-1 stay in UTF-8. *)
Definition LOCAL_KB : list (string * list kb_entry) :=
  [ ("OrientationAgent",
     [ KB "how can i start?" "To start: login to your LMS dashboard → open the Orientation module → complete lessons and the short quiz. If you can't find it, provide your username.";
       KB "how do i take the orientation?" "Open Dashboard → Orientation → Start Module. Complete each lesson and the orientation assessment to be marked complete.";
       KB "where is the orientation module?" "Orientation is listed under 'My Courses' or 'Course Modules'. If missing, provide your username and I'll check enrollment.";
       KB "do i need ms office?" "No. The course is browser-based. You can use MS365 online if you want to practice offline files." ]);
    ("TechSupportAgent",
     [ KB "i need access code" "Please give your username. We'll look for an access code on file or generate/escalate one for you.";
       KB "i can't log in" "Try 'Forgot password' link. If that fails, give your username and any error text (e.g., 'access denied') and we'll check activation.";
       KB "how do i install lockdown browser?" "Download the LockDown Browser installer from the LMS Help link, run the installer and then log in to the browser with your LMS credentials.";
       KB "access denied error" "This usually means your account isn't activated. Provide username and we will resend activation or escalate to support." ]);
    ("ProgressAgent",
     [ KB "show my progress" "Provide your username and I will return modules completed, percent complete, and pending quizzes.";
       KB "where am i in my course?" "You are currently on module X. Provide username for exact module name and percent complete.";
       KB "how much percent completed?" "Percent complete is computed as (completed lessons / total lessons) * 100. Provide username for exact figure." ]);
    ("FAQAgent",
     [ KB "what is the refund policy?" "Refunds: allowed within 7 days of enrollment if < 10% course completed. Contact support with your username to submit a request.";
       KB "what are class timings?" "Course is self-paced. Live office hours: Monday & Thursday 7–9 PM (local).";
       KB "how long is the course?" "Typical 8–12 weeks depending on learner pace.";
       KB "do i get a certificate?" "Yes — on 100% completion and passing the final assessment." ]);
    ("ErrorAgent",
     [ KB "server error" "Please copy the full error message and approximate time; we'll check server logs.";
       KB "app crashed" "Try clearing browser cache and reloading. If it persists, tell us steps to reproduce and browser/version." ]) ].

(** [kb.get(cname, [])] *)
Fixpoint kb_get (kb : list (string * list kb_entry)) (cname : string)
  : list kb_entry :=
  match kb with
  | [] => []
  | (k, es) :: rest => if String.eqb k cname then es else kb_get rest cname
  end.

(** The list [candidates] of [best_kb_match]. *)
Definition candidates (agent_name : string) : list string :=
  [agent_name]
  ++ (if negb (PyStr.endswith agent_name "Agent")
      then [agent_name +:+ "Agent"] else [])
  ++ (if PyStr.endswith agent_name "Agent"
      then [PyStr.replace agent_name "Agent" ""] else []).

(** The loop that builds [final_candidates]: non-empty names not [seen]
    before, in order. *)
Fixpoint unique (seen cs : list string) : list string :=
  match cs with
  | [] => []
  | c :: cs' =>
      if PyStr.truthy c && negb (bool_decide (c ∈ seen))
      then c :: unique (c :: seen) cs'
      else unique seen cs'
  end.

Definition final_candidates (agent_name : string) : list string :=
  unique [] (candidates agent_name).

(** [set(message_norm.split())] and [tokens & qtokens] being non-empty. *)
Definition shares_token (tokens : list string) (e : kb_entry) : bool :=
  existsb (fun tok => bool_decide (tok ∈ PyStr.split (PyStr.lower (q e)))) tokens.

(** The entry's question and the message have a word in common. *)
Definition shares (message_norm : string) (e : kb_entry) : Prop :=
  exists tok,
    tok ∈ PyStr.split message_norm /\ tok ∈ PyStr.split (PyStr.lower (q e)).

(** The default [cutoff].  Scores are the floats [2.0 * matches /
    length]; they are kept as exact quotients, which compare with each
    other and with 0.6 as the floats do for texts of any length that
    can occur. *)
Definition cutoff : Q := 6 # 10.

Section BestMatch.

(** [difflib.SequenceMatcher(None, x, y).ratio()]: any function will
    do for what is proved about the search itself; [Difflib.ratio] is
    the one the program runs with. *)
Variable ratio : string -> string -> Q.

(** The knowledge base; the program uses [LOCAL_KB]. *)
Variable kb : list (string * list kb_entry).

(** All entries the two loops visit, in the order they visit them. *)
Definition entries (cands : list string) : list kb_entry :=
  concat (map (kb_get kb) cands).

Definition score (message_norm : string) (e : kb_entry) : Q :=
  ratio message_norm (PyStr.lower (q e)).

(** One pass of the body of the scoring loop over [(best, best_score)]. *)
Definition score_step (message_norm : string)
  (st : option kb_entry * Q) (e : kb_entry) : option kb_entry * Q :=
  let s := score message_norm e in
  if Tools.Qgt_bool s (snd st) then (Some e, s) else st.

Definition score_loop (message_norm : string) (es : list kb_entry)
  : option kb_entry * Q :=
  foldl (score_step message_norm) (None, 0%Q) es.

(** What [(best, best_score)] is after the scoring loop has passed over
    [es]: nothing and 0 while no score was above 0; otherwise the first
    entry with the highest score. *)
Definition best_so_far (message_norm : string) (es : list kb_entry)
  (st : option kb_entry * Q) : Prop :=
  match st with
  | (None, s) =>
      s = 0%Q /\ forall e, e ∈ es -> (score message_norm e <= 0)%Q
  | (Some b, s) =>
      s = score message_norm b /\ (0 < s)%Q /\
      exists pre post,
        es = pre ++ b :: post /\
        (forall e, e ∈ pre -> (score message_norm e < s)%Q) /\
        (forall e, e ∈ post -> (score message_norm e <= s)%Q)
  end.

(** The token-overlap fallback loop. *)
Definition token_fallback (message_norm : string) (es : list kb_entry)
  : option string :=
  a <$> List.find (shares_token (Tools.token_set message_norm)) es.

(** The two loops of [best_kb_match] over the lists of the names
    [cands]: the best-scoring entry if it reaches the cutoff, else the
    first entry sharing a token. *)
Definition search (cands : list string) (message_norm : string)
  : option string :=
  match score_loop message_norm (entries cands) with
  | (Some best, best_score) =>
      if Qle_bool cutoff best_score then Some (a best)
      else token_fallback message_norm (entries cands)
  | (None, _) => token_fallback message_norm (entries cands)
  end.

(** [best_kb_match(agent_name, message)] with the default cutoff;
    [None] is Python's [None]. *)
Definition best_kb_match (agent_name message : string) : option string :=
  if negb (PyStr.truthy message) then None
  else search (final_candidates agent_name) (PyStr.lower (PyStr.strip message)).

(** The candidate names as the comment in [best_kb_match] and the
    specification give them: the name, the name with "Agent" appended,
    the name with its "Agent" suffix removed, in that order, without
    duplicates. *)
Definition spec_candidates (agent_name : string) : list string :=
  unique [] [ agent_name; agent_name +:+ "Agent";
              PyStr.removesuffix agent_name "Agent" ].

(** [best_kb_match] over the candidate names of the specification. *)
Definition spec_best_kb_match (agent_name message : string) : option string :=
  if negb (PyStr.truthy message) then None
  else search (spec_candidates agent_name) (PyStr.lower (PyStr.strip message)).

End BestMatch.

(** The phrases of [_looks_generic_assistant]. *)
Definition generic_phrases : list string :=
  [ "i can"; "here are"; "sure"; "happy to"; "i'm here to"; "i can help";
    "please provide"; "you can" ].

(** [_looks_generic_assistant] *)
Definition _looks_generic_assistant (txt : string) : bool :=
  if negb (PyStr.truthy txt) then true
  else
    let t := PyStr.lower txt in
    if existsb (fun p => PyStr.contains p t) generic_phrases then true
    else if (length (PyStr.split txt) <=? 20)%nat
            && (0 <? String.length txt)%nat then true
    else false.

End Main.

(** ** root_agent.py: RootAgent.route *)

Module RootAgent.

(** The reply of [route] when the chosen agent raised. *)
Definition apology : string :=
  "I'm sorry — something went wrong while handling your request.".

(** The sub-agent [route] picks. *)
Inductive choice : Type := orientation | tech | progress | faq.

(** The routing heuristics of [route]. *)
Definition choose (message : string) : choice :=
  let txt := PyStr.lower message in
  if existsb (fun k => PyStr.contains k txt) ["orientation"; "onboarding"]
  then orientation
  else if existsb (fun k => PyStr.contains k txt)
                  ["lockdown"; "respondus"; "ms365"; "login"; "password"]
  then tech
  else if existsb (fun k => PyStr.contains k txt)
                  ["access code"; "activate"; "course status"]
  then progress
  else faq.

(** [self.subagents[...]]: the four leaf agents share [llm], the tools
    and the memory object of the root agent. *)
Definition subagent (c : choice) (b : Agents.base) : Agents.handler :=
  match c with
  | orientation => Agents.OrientationAgent b
  | tech => Agents.TechSupportAgent b
  | progress => Agents.ProgressAgent b
  | faq => Agents.FAQAgent b
  end.

(** [try: self.memory.append_history(...) except Exception: ...] *)
Definition try_append (m : MemoryStore.t) (sid : string)
  (now : MemoryStore.time) (r txt : string) : MemoryStore.t :=
  match MemoryStore.append_history m sid now r txt with
  | Ok m' => m'
  | Raise _ => m
  end.

(** [route]: [b] holds the collaborators and the store before the call,
    [now] and [now'] are the clock readings of the two appends.  The
    agent runs on the store as the first append left it. *)
Definition route (b : Agents.base) (sid message : string)
  (now now' : MemoryStore.time) : string * MemoryStore.t :=
  let m1 := try_append (Agents.memory b) sid now "user" message in
  let b1 := Agents.Base (Agents.llm b) (Agents.student_db b) m1 in
  let resp :=
    match subagent (choose message) b1 sid message with
    | Ok r => r
    | Raise _ => apology
    end in
  (resp, try_append m1 sid now' "assistant" resp).

End RootAgent.

(** ** main.py: the local router and the fallback of ask *)

Module Router.

(** [local_route_message] *)
Definition local_route_message (message : string) : string :=
  let m := PyStr.lower message in
  let any := existsb (fun tok => PyStr.contains tok m) in
  if any ["orientation"; "how can i start"; "how to start"; "get started";
          "enroll"; "onboard"]
  then "OrientationAgent"
  else if any ["access code"; "access codes"; "accesscode"; "i need code";
               "code"; "password"; "login"; "log in"; "can't log";
               "cant log"; "lockdown"]
  then "TechSupportAgent"
  else if any ["progress"; "where am i"; "percent"; "completion";
               "completed"; "grade"]
  then "ProgressAgent"
  else if any ["refund"; "refund policy"; "class time"; "timings";
               "schedule"; "fees"; "certificate"; "how long"; "duration"]
  then "FAQAgent"
  else if any ["traceback"; "exception"; "crash"; "error"; "server"]
  then "ErrorAgent"
  else "FAQAgent".

(** [s.isspace()] *)
Definition isspace (s : string) : bool :=
  PyStr.truthy s && forallb PyStr.is_space (PyStr.to_list s).

(** The reply of last resort of [ask]. *)
Definition final_fallback : string :=
  "Sorry — I couldn't find a direct answer. Please provide more details (e.g., username, course code).".

Section Ask.

Variable ratio : string -> string -> Q.
Variable kb : list (string * list Main.kb_entry).

(** [kb_answer = best_kb_match(agent_name, message)] followed by
    [if kb_answer: reply_text = kb_answer; used_local_kb = True], on the
    pair [(reply_text, used_local_kb)]. *)
Definition try_kb (agent_name message : string) (st : string * bool)
  : string * bool :=
  match Main.best_kb_match ratio kb agent_name message with
  | Some ans => if PyStr.truthy ans then (ans, true) else st
  | None => st
  end.

(** What holds of [(reply_text, used_local_kb)] for the agent name at
    hand: a reply marked as a knowledge-base answer is the non-empty
    answer found for that agent; one not so marked is the reply that
    came in. *)
Definition settled (reply_text agent_name message : string)
  (st : string * bool) : Prop :=
  if snd st
  then Main.best_kb_match ratio kb agent_name message = Some (fst st)
       /\ PyStr.truthy (fst st) = true
  else fst st = reply_text.

(** Step 2 of [ask]: a reply without agent attribution that is missing
    or looks generic is handed to the local router and the knowledge
    base.  The result is [(agent_name, (reply_text, used_local_kb))]. *)
Definition step2 (agent_name reply_text message : string)
  : string * (string * bool) :=
  if String.eqb agent_name "" || String.eqb agent_name "Assistant" then
    if PyStr.truthy reply_text && negb (isspace reply_text) then
      if Main._looks_generic_assistant reply_text then
        let chosen := local_route_message message in
        (chosen, try_kb chosen message (reply_text, false))
      else (agent_name, (reply_text, false))
    else
      let chosen := local_route_message message in
      (chosen, try_kb chosen message (reply_text, false))
  else (agent_name, (reply_text, false)).

(** Step 3: with no reply text yet, the knowledge base is tried for the
    agent at hand. *)
Definition step3 (agent_name message : string) (st : string * bool)
  : string * bool :=
  if negb (PyStr.truthy (fst st)) then try_kb agent_name message st else st.

(** Step 4: the reply of last resort. *)
Definition step4 (reply_text : string) : string :=
  if negb (PyStr.truthy reply_text) then final_fallback else reply_text.

(** Steps 2 to 4 of [ask], from the [agent_name] and [reply_text] that
    parsing the route result left: the result is [(agent_name,
    reply_text, used_local_kb)] as they stand before the reply is
    recorded. *)
Definition ask_fallback (agent_name reply_text message : string)
  : string * string * bool :=
  let '(agent_name2, st2) := step2 agent_name reply_text message in
  let st3 := step3 agent_name2 message st2 in
  (agent_name2, step4 (fst st3), snd st3).

End Ask.

End Router.

(** ** evaluation.py *)

Module Evaluation.

(** [{"component_scores": score, "total": total}] *)
Record result : Type := Result {
  relevance : nat;
  correctness : nat;
  clarity : nat;
  total : nat
}.

(** [evaluate_agent_response] *)
Definition evaluate_agent_response (prompt response : string) : result :=
  let p := PyStr.lower prompt in
  let r := PyStr.lower response in
  let rel :=
    if existsb (fun tok => PyStr.contains tok r) (take 3 (PyStr.split p))
    then 40 else 0 in
  let cor :=
    if PyStr.contains "password" p && PyStr.contains "reset" r
    then 25 else 0 in
  let cla := if (6 <? length (PyStr.split response))%nat then 15 else 0 in
  Result rel cor cla (rel + cor + cla).

End Evaluation.

(* ===================================================================== *)
(** * Part II: properties                                                 *)
(* ===================================================================== *)

(** ** Strings *)

Module PyStrFacts.
Import PyStr.

Lemma append_cons (c : ascii) (s t : string) :
  String c s +:+ t = String c (s +:+ t).
Proof. reflexivity. Qed.

Lemma append_nil_l (t : string) : "" +:+ t = t.
Proof. reflexivity. Qed.

Ltac app_simpl := rewrite ?append_cons, ?append_nil_l in *.

Lemma append_nil_r (s : string) : s +:+ "" = s.
Proof. induction s as [|c s IH]; app_simpl; [reflexivity | f_equal; exact IH]. Qed.

Lemma append_assoc (s1 s2 s3 : string) :
  (s1 +:+ s2) +:+ s3 = s1 +:+ (s2 +:+ s3).
Proof. induction s1 as [|c s1 IH]; app_simpl; simpl; [reflexivity | f_equal; exact IH]. Qed.

Lemma append_inj_l (p s1 s2 : string) : p +:+ s1 = p +:+ s2 -> s1 = s2.
Proof. induction p as [|c p IH]; app_simpl; intros H; [exact H | injection H; auto]. Qed.

Lemma length_append (s1 s2 : string) :
  String.length (s1 +:+ s2) = (String.length s1 + String.length s2)%nat.
Proof. induction s1 as [|c s1 IH]; app_simpl; simpl; [reflexivity | f_equal; exact IH]. Qed.

Lemma to_list_append (s1 s2 : string) :
  to_list (s1 +:+ s2) = to_list s1 ++ to_list s2.
Proof.
  unfold to_list. induction s1 as [|c s1 IH]; app_simpl; simpl; [reflexivity | f_equal; exact IH].
Qed.

Lemma to_list_inj (s1 s2 : string) : to_list s1 = to_list s2 -> s1 = s2.
Proof.
  unfold to_list. intros H.
  rewrite <- (string_of_list_ascii_of_string s1), H.
  apply string_of_list_ascii_of_string.
Qed.

Lemma to_of_list (l : list ascii) : to_list (of_list l) = l.
Proof. apply list_ascii_of_string_of_list_ascii. Qed.

Lemma of_to_list (s : string) : of_list (to_list s) = s.
Proof. apply string_of_list_ascii_of_string. Qed.

Lemma append_inj_r (s1 s2 p : string) : s1 +:+ p = s2 +:+ p -> s1 = s2.
Proof.
  intros H. apply to_list_inj.
  apply (f_equal to_list) in H. rewrite !to_list_append in H.
  now apply app_inv_tail in H.
Qed.

(** A string is cut in one way only at a character that does not occur
    after the cut. *)
Lemma cut_unique (c : ascii) (u1 u2 d1 d2 : string) :
  ~ In c (to_list d1) -> ~ In c (to_list d2) ->
  u1 +:+ String c d1 = u2 +:+ String c d2 ->
  u1 = u2 /\ d1 = d2.
Proof.
  intros H1 H2. revert u2.
  induction u1 as [|a u1 IH]; intros [|b u2]; app_simpl; intros E.
  - injection E as E. now split.
  - injection E as Ea Ed. exfalso. apply H1. subst.
    rewrite to_list_append. apply in_or_app. right. now left.
  - injection E as Ea Ed. exfalso. apply H2. subst.
    rewrite to_list_append. apply in_or_app. right. now left.
  - injection E as Ea Ed. destruct (IH _ Ed) as [-> ->]. now subst.
Qed.

(** The decimal rendering of a number holds digits only. *)
Lemma string_of_uint_digits (d : Decimal.uint) (c : ascii) :
  In c (to_list (NilEmpty.string_of_uint d)) ->
  (48 <= code c <= 57)%N.
Proof.
  induction d; simpl; intros H; try contradiction;
    (destruct H as [<- | H]; [vm_compute; split; discriminate | auto]).
Qed.

Lemma str_of_N_no_underscore (n : N) : ~ In "_"%char (to_list (str_of_N n)).
Proof.
  intros H. apply string_of_uint_digits in H. vm_compute in H.
  destruct H as [_ H]. now apply H.
Qed.

Lemma str_of_N_inj (n1 n2 : N) : str_of_N n1 = str_of_N n2 -> n1 = n2.
Proof.
  unfold str_of_N. intros H.
  apply Unsigned.to_uint_inj.
  assert (E : Some (N.to_uint n1) = Some (N.to_uint n2))
    by (rewrite <- !NilEmpty.usu; now rewrite H).
  now injection E.
Qed.

Lemma str_of_N_digits (n : N) (c : ascii) :
  In c (to_list (str_of_N n)) -> (48 <= code c <= 57)%N.
Proof. apply string_of_uint_digits. Qed.

Lemma str_of_Z_no_underscore (z : Z) : ~ In "_"%char (to_list (str_of_Z z)).
Proof.
  destruct z as [|p|p]; cbn [str_of_Z]; try apply str_of_N_no_underscore.
  rewrite to_list_append. intros H. apply in_app_or in H as [H | H].
  - simpl in H. destruct H as [H | H]; [discriminate H | exact H].
  - now apply str_of_N_no_underscore in H.
Qed.

Lemma str_of_N_not_minus (n : N) (s : string) : str_of_N n <> "-" +:+ s.
Proof.
  intros E.
  assert (H : In "-"%char (to_list (str_of_N n))) by (rewrite E; now left).
  apply str_of_N_digits in H. vm_compute in H. destruct H as [H _]. now apply H.
Qed.

Lemma str_of_Z_inj (z1 z2 : Z) : str_of_Z z1 = str_of_Z z2 -> z1 = z2.
Proof.
  destruct z1 as [|p1|p1], z2 as [|p2|p2]; cbn [str_of_Z Z.to_N]; intros E;
    try (apply str_of_N_inj in E; congruence);
    try (now apply str_of_N_not_minus in E);
    try (symmetry in E; now apply str_of_N_not_minus in E).
  apply append_inj_l in E. apply str_of_N_inj in E. congruence.
Qed.

End PyStrFacts.

(** ** memory.py *)

Module MemoryStoreFacts.
Import MemoryStore.

Lemma last10_short {A : Type} (l : list A) : length l <= 10 -> last10 l = l.
Proof.
  intros H. unfold last10. replace (length l - 10) with 0 by lia. reflexivity.
Qed.

Lemma last10_length {A : Type} (l : list A) :
  length (last10 l) = Nat.min (length l) 10.
Proof. unfold last10. rewrite length_drop. lia. Qed.

Lemma last10_app_last10 {A : Type} (l k : list A) :
  last10 (last10 l ++ k) = last10 (l ++ k).
Proof.
  destruct (le_lt_dec (length l) 10) as [H | H].
  - now rewrite (last10_short l H).
  - unfold last10. rewrite !length_app, length_drop.
    replace (length l - (length l - 10) + length k - 10) with (length k) by lia.
    replace (length l + length k - 10) with ((length l - 10) + length k) by lia.
    rewrite <- drop_drop. f_equal. rewrite drop_app_le by lia. reflexivity.
Qed.

Lemma compacted_last10 (es h : list entry) :
  length h <= 10 -> compacted h es = last10 (h ++ es).
Proof.
  revert h. induction es as [|e es IH]; intros h H; simpl.
  - rewrite app_nil_r. symmetry. now apply last10_short.
  - unfold compacted in *. simpl. rewrite IH.
    + rewrite last10_app_last10. now rewrite <- app_assoc.
    + rewrite last10_length. lia.
Qed.

Lemma get_session_with (m : t) (ss : gmap string session) (sid : string) :
  get_session (_flush (with_sessions m ss)) sid = ss !! sid.
Proof. reflexivity. Qed.

Lemma flush_file (m : t) : file (_flush m) = _data (_flush m).
Proof. reflexivity. Qed.

Lemma append_history_known (m : t) (sid : string) (s : session)
  (now : time) (r txt : string) :
  get_session m sid = Some s ->
  exists m',
    append_history m sid now r txt = Ok m' /\
    get_session m' sid =
      Some (Session (username s) (last10 (history s ++ [Entry now r txt]))
                    (state s) (created s)).
Proof.
  unfold get_session, append_history. intros ->.
  eexists. split; [reflexivity|].
  simpl. apply lookup_insert_eq.
Qed.

Lemma append_all_known (es : list entry) (m : t) (sid : string) (s : session) :
  get_session m sid = Some s ->
  exists m',
    append_all m sid es = Ok m' /\
    get_session m' sid =
      Some (Session (username s) (compacted (history s) es) (state s) (created s)).
Proof.
  revert m s. induction es as [|e es IH]; intros m s H; simpl.
  - exists m. split; [reflexivity|]. now destruct s.
  - destruct (append_history_known m sid s (ts e) (role e) (text e) H)
      as (m1 & -> & H1).
    destruct (IH _ _ H1) as (m2 & E2 & H2). simpl in H2.
    exists m2. split; [exact E2|]. rewrite H2. now destruct e.
Qed.

(** Appends to a session that already holds [h] (at most 10 entries)
    leave the last 10 of [h] followed by the appended entries. *)
Lemma append_all_history (es : list entry) (m : t) (sid : string) (s : session) :
  get_session m sid = Some s ->
  length (history s) <= 10 ->
  exists m' s',
    append_all m sid es = Ok m' /\
    get_session m' sid = Some s' /\
    history s' = last10 (history s ++ es).
Proof.
  intros H Hlen. destruct (append_all_known es m sid s H) as (m' & E & G).
  eexists m', _. split; [exact E|]. split; [exact G|]. simpl.
  now apply compacted_last10.
Qed.

Lemma create_session_get (m : t) (user : string) (n : stamp) (now' : time) :
  get_session (snd (create_session m user n now'))
              (fst (create_session m user n now'))
  = Some (Session user [] ∅ now').
Proof. unfold create_session. simpl. rewrite get_session_with. apply lookup_insert_eq. Qed.

(** C4. After N successive [append_history] calls on a session (counted
    from its creation), the stored history has length min(N, 10) and is
    made of the most recent appended entries, in the order they were
    appended. *)
Theorem append_history_keeps_most_recent
  (m : t) (user : string) (n : stamp) (now' : time) (es : list entry) :
  exists m' s,
    append_all (snd (create_session m user n now'))
               (fst (create_session m user n now')) es = Ok m' /\
    get_session m' (fst (create_session m user n now')) = Some s /\
    length (history s) = Nat.min (length es) 10 /\
    history s = drop (length es - Nat.min (length es) 10) es.
Proof.
  destruct (append_all_history es _ _ _ (create_session_get m user n now'))
    as (m' & s & E & G & Hh); [simpl; lia|].
  exists m', s. split; [exact E|]. split; [exact G|].
  simpl in Hh. rewrite Hh. split.
  - apply last10_length.
  - unfold last10. f_equal. lia.
Qed.

(** C5, as the code has it. For a session id the store does not know,
    [get_session] returns None, while [append_history] and
    [set_session_field] raise KeyError("unknown session") and change
    nothing. *)
Theorem unknown_session_outcomes
  (m : t) (sid : string) (now : time) (r txt key value : string) :
  sessions (_data m) !! sid = None ->
  get_session m sid = None /\
  append_history m sid now r txt = Raise unknown_session /\
  set_session_field m sid key value = Raise unknown_session.
Proof.
  intros H. unfold get_session, append_history, set_session_field.
  rewrite H. repeat split.
Qed.

Lemma unknown_session_outcomes_witness :
  get_session init "sess_nobody_0" = None /\
  append_history init "sess_nobody_0" 5%N "user" "hello" = Raise unknown_session /\
  set_session_field init "sess_nobody_0" "k" "v" = Raise unknown_session.
Proof. apply (unknown_session_outcomes init "sess_nobody_0"). reflexivity. Defined.

(** C5 as stated fails: it is not so that [append_history] on an
    unknown session id never raises. *)
Lemma append_history_unknown_raises :
  ~ (forall (m : t) (sid : string) (now : time) (r txt : string),
        get_session m sid = None ->
        returns (append_history m sid now r txt)).
Proof.
  intros H. destruct (H init "sess_nobody_0" 5%N "user" "hello" eq_refl) as [m' E].
  discriminate E.
Qed.

(** C9, as the code has it. The id is "sess_<username>_<n>", with n
    the integer the call computes from the clock: two calls return the
    same id exactly when they have the same username and compute the
    same integer, as two calls within one second do, and then the later
    call puts a fresh record in the place of the earlier one; calls that
    differ in username or in that integer return different ids. *)
Theorem create_session_id_collision
  (m1 m2 : t) (u1 u2 : string) (n1 n2 : stamp) (t1' t2' : time) :
  (fst (create_session m1 u1 n1 t1') = fst (create_session m2 u2 n2 t2')
   <-> u1 = u2 /\ n1 = n2) /\
  get_session (snd (create_session m2 u2 n2 t2'))
              (fst (create_session m2 u2 n2 t2'))
  = Some (Session u2 [] ∅ t2').
Proof.
  split; [|apply create_session_get].
  unfold create_session, session_id. simpl. split.
  - intros E. apply PyStrFacts.append_inj_l in E.
    apply PyStrFacts.cut_unique in E;
      try apply PyStrFacts.str_of_Z_no_underscore.
    destruct E as [-> E]. split; [reflexivity|].
    now apply PyStrFacts.str_of_Z_inj.
  - intros [-> ->]. reflexivity.
Qed.

(** C9 as stated fails: two calls for "bob" half a second apart (the
    clock readings 1.00001 s and 1.50001 s, which give the integer 1)
    return the same id, and the second call replaces the record, losing
    the entry appended in between. *)
Lemma create_session_same_second :
  let c1 := create_session init "bob" 1%Z 1000010%N in
  let m2 := match append_history (snd c1) (fst c1) 1200000%N "user" "hello" with
            | Ok m => m
            | Raise _ => snd c1
            end in
  let c2 := create_session m2 "bob" 1%Z 1500010%N in
  fst c1 = fst c2 /\
  history <$> get_session m2 (fst c1) = Some [Entry 1200000%N "user" "hello"] /\
  history <$> get_session (snd c2) (fst c1) = Some [].
Proof. vm_compute. repeat split. Qed.

End MemoryStoreFacts.

(** ** agents.py *)

Module AgentsFacts.
Import Agents.

(** *** The threads of ParallelAgent *)

Lemma joined_permutation (running results final : list string) :
  joined running results final ->
  exists p, p ≡ₚ running /\ final = results ++ p.
Proof.
  induction 1 as [results | before r after results final _ (p & Hp & ->)].
  - exists []. split; [reflexivity | now rewrite app_nil_r].
  - exists (r :: p). split.
    + rewrite Hp. apply Permutation_middle.
    + now rewrite <- app_assoc.
Qed.

Lemma permutation_joined (p : list string) :
  forall running results, p ≡ₚ running -> joined running results (results ++ p).
Proof.
  induction p as [|r p IH]; intros running results Hp.
  - apply Permutation_nil in Hp as ->. rewrite app_nil_r. constructor.
  - assert (Hin : r ∈ running) by (rewrite <- Hp; left).
    apply list_elem_of_split in Hin as (before & after & ->).
    apply Permutation_cons_app_inv in Hp.
    apply joined_append.
    replace (results ++ r :: p) with ((results ++ [r]) ++ p)
      by now rewrite <- app_assoc.
    now apply IH.
Qed.

Lemma joined_iff (running final : list string) :
  joined running [] final <-> final ≡ₚ running.
Proof.
  split.
  - intros H. apply joined_permutation in H as (p & Hp & ->). exact Hp.
  - intros H. apply (permutation_joined final running []). exact H.
Qed.

(** C1, as the code has it. ParallelAgent.handle returns the members'
    results joined by the separator in the order in which the member
    threads appended them: every output is the join of a rearrangement
    of the results taken in agent-list order, every rearrangement is a
    possible output, and the output in agent-list order is the one
    obtained when the threads append in list order. *)
Theorem ParallelAgent_handle_completion_order
  (agents : list handler) (sid message : string) :
  (forall out,
     ParallelAgent_handle agents sid message out <->
     exists results,
       results ≡ₚ map (run_agent sid message) agents /\
       out = PyStr.join separator results) /\
  ParallelAgent_handle agents sid message
    (PyStr.join separator (map (run_agent sid message) agents)).
Proof.
  assert (H : forall out,
     ParallelAgent_handle agents sid message out <->
     exists results,
       results ≡ₚ map (run_agent sid message) agents /\
       out = PyStr.join separator results).
  { intros out. unfold ParallelAgent_handle.
    split; intros (results & Hr & ->); exists results;
      (split; [now apply joined_iff | reflexivity]). }
  split; [exact H|]. apply H. eexists. split; reflexivity.
Qed.

(** C1 as stated fails: with members A and B, the thread of B may
    append first, and then B's result comes first in the output. *)
Lemma ParallelAgent_order_counterexample :
  let A : handler := fun _ _ => Ok "from A" in
  let B : handler := fun _ _ => Ok "from B" in
  ParallelAgent_handle [A; B] "sess_bob_1" "hi"
    ("from B" +:+ separator +:+ "from A") /\
  "from B" +:+ separator +:+ "from A"
  <> PyStr.join separator [run_agent "sess_bob_1" "hi" A; run_agent "sess_bob_1" "hi" B].
Proof.
  split.
  - exists ["from B"; "from A"]. split; [|reflexivity].
    apply (joined_append ["from A"] "from B" [] [] _).
    apply (joined_append [] "from A" [] ["from B"] _).
    apply joined_all.
  - vm_compute. discriminate.
Qed.

Lemma omap_appended_as_member (sid message : string) (agents : list handler) :
  omap (appended sid message) (map as_member agents)
  = map (run_agent sid message) agents.
Proof.
  induction agents as [|a agents IH]; [reflexivity|].
  change (omap (appended sid message) (map as_member (a :: agents)))
    with (match appended sid message (as_member a) with
          | Some x => x :: omap (appended sid message) (map as_member agents)
          | None => omap (appended sid message) (map as_member agents)
          end).
  rewrite IH. unfold appended, as_member, run_agent. simpl.
  now destruct (a sid message).
Qed.

(** On members that raise exceptions derived from Exception only, the
    two descriptions of ParallelAgent.handle agree. *)
Lemma ParallelAgent_run_handlers (agents : list handler) (sid message out : string) :
  ParallelAgent_run (map as_member agents) sid message out <->
  ParallelAgent_handle agents sid message out.
Proof.
  unfold ParallelAgent_run, ParallelAgent_handle.
  now rewrite omap_appended_as_member.
Qed.

Lemma contributes_appended (sid message : string) (agents : list member) :
  Forall2 (contributes sid message) agents (map (appended sid message) agents).
Proof.
  induction agents as [|a agents IH]; simpl; constructor; [|exact IH].
  unfold contributes, appended. now destruct (a sid message).
Qed.

Lemma contributes_unique (sid message : string) (agents : list member)
  (slots : list (option string)) :
  Forall2 (contributes sid message) agents slots ->
  slots = map (appended sid message) agents.
Proof.
  induction 1 as [|a o agents slots Ha _ IH]; simpl; [reflexivity|].
  f_equal; [|exact IH].
  unfold contributes, appended in *. now destruct (a sid message).
Qed.

Lemma omap_id_map {A B : Type} (f : A -> option B) (l : list A) :
  omap id (map f l) = omap f l.
Proof.
  induction l as [|x l IH]; [reflexivity|].
  change (omap id (map f (x :: l)))
    with (match f x with Some y => y :: omap id (map f l) | None => omap id (map f l) end).
  now rewrite IH.
Qed.

(** C3, as the code has it. ParallelAgent.handle does not raise when a
    member does: it has an output.  A member that returned contributes
    its result unchanged, a member that raised an exception derived
    from Exception contributes "Agent error: " followed by the
    exception's message, and a member that raised any other exception
    contributes nothing; the outputs are exactly the joins of these
    contributions in the orders in which the threads can append them,
    so that an error text stands where its thread came in, not at the
    failing member's place in the list. *)
Theorem ParallelAgent_contributions
  (agents : list member) (sid message : string) :
  (exists out, ParallelAgent_run agents sid message out) /\
  (forall out,
     ParallelAgent_run agents sid message out <->
     exists slots results,
       Forall2 (contributes sid message) agents slots /\
       results ≡ₚ omap id slots /\
       out = PyStr.join separator results).
Proof.
  split.
  - eexists. exists (omap (appended sid message) agents).
    split; [|reflexivity]. now apply joined_iff.
  - intros out. split.
    + intros (results & Hr & ->).
      exists (map (appended sid message) agents), results.
      split; [apply contributes_appended|]. split; [|reflexivity].
      rewrite omap_id_map. now apply joined_iff.
    + intros (slots & results & Hs & Hp & ->).
      apply contributes_unique in Hs as ->. rewrite omap_id_map in Hp.
      exists results. split; [now apply joined_iff | reflexivity].
Qed.

(** C3 as stated fails: with members A and B, where B raises
    KeyError("unknown session"), the thread of B may append first; the
    error text then stands first, in the place of A, and the place of
    the failing member B holds A's result. *)
Lemma ParallelAgent_error_position_counterexample :
  let A : member := fun _ _ => Returned "from A" in
  let B : member := fun _ _ => RaisedException unknown_session in
  ParallelAgent_run [A; B] "sess_bob_1" "hi"
    ("Agent error: 'unknown session'" +:+ separator +:+ "from A") /\
  "Agent error: 'unknown session'" +:+ separator +:+ "from A"
  <> "from A" +:+ separator +:+ "Agent error: 'unknown session'".
Proof.
  split.
  - exists ["Agent error: 'unknown session'"; "from A"]. split; [|reflexivity].
    apply (joined_append ["from A"] "Agent error: 'unknown session'" [] [] _).
    apply (joined_append [] "from A" [] ["Agent error: 'unknown session'"] _).
    apply joined_all.
  - vm_compute. discriminate.
Qed.

(** A member that raises SystemExit leaves no trace in the output. *)
Example ParallelAgent_member_exits :
  let A : member := fun _ _ => Returned "from A" in
  let B : member := fun _ _ => RaisedOther in
  forall out, ParallelAgent_run [A; B] "sess_bob_1" "hi" out <-> out = "from A".
Proof.
  intros A B out. unfold ParallelAgent_run. simpl. split.
  - intros (results & Hr & ->). apply joined_iff in Hr.
    apply Permutation_singleton_r in Hr. now subst.
  - intros ->. exists ["from A"]. split; [now apply joined_iff | reflexivity].
Qed.

(** *** SequentialAgent *)

(** C10. SequentialAgent over the empty list of agents returns the
    message it is given. *)
Theorem SequentialAgent_empty (sid message : string) :
  SequentialAgent [] sid message = Ok message.
Proof. reflexivity. Qed.

Lemma SequentialAgent_app (xs ys : list handler) (sid state : string) :
  SequentialAgent (xs ++ ys) sid state =
  match SequentialAgent xs sid state with
  | Ok state' => SequentialAgent ys sid state'
  | Raise e => Raise e
  end.
Proof.
  revert state. induction xs as [|a xs IH]; intros state; simpl; [reflexivity|].
  destruct (a sid state); [apply IH | reflexivity].
Qed.

(** A failing stage is not isolated: its exception is the outcome. *)
Lemma SequentialAgent_propagates (xs ys : list handler) (a : handler)
  (sid state state' : string) (e : exn) :
  SequentialAgent xs sid state = Ok state' ->
  a sid state' = Raise e ->
  SequentialAgent (xs ++ a :: ys) sid state = Raise e.
Proof. intros H1 H2. rewrite SequentialAgent_app, H1. simpl. now rewrite H2. Qed.

End AgentsFacts.

(** ** The leaf agents *)

Module LeafAgentsFacts.
Import Agents.

Lemma session_username_known (b : base) (sid : string) (s : MemoryStore.session) :
  MemoryStore.get_session (memory b) sid = Some s ->
  session_username b sid = Ok (MemoryStore.username s).
Proof. unfold session_username. now intros ->. Qed.

Lemma session_username_unknown (b : base) (sid : string) :
  MemoryStore.get_session (memory b) sid = None ->
  session_username b sid = Raise NoneType_subscript.
Proof. unfold session_username. now intros ->. Qed.

Lemma returns_Ok {A : Type} (a : A) : returns (Ok a).
Proof. now exists a. Qed.

#[local] Hint Resolve returns_Ok : core.

Lemma FAQAgent_returns (b : base) (sid message : string) :
  returns (FAQAgent b sid message).
Proof. unfold FAQAgent. auto. Qed.

Lemma TechSupportAgent_returns (b : base) (sid message : string) :
  (forall prompt, returns (llm b prompt)) ->
  returns (TechSupportAgent b sid message).
Proof.
  intros Hllm. unfold TechSupportAgent.
  repeat match goal with |- context [if ?c then _ else _] => destruct c end; auto.
Qed.

Lemma OrientationAgent_returns (b : base) (sid message : string) :
  (forall prompt, returns (llm b prompt)) ->
  is_Some (MemoryStore.get_session (memory b) sid) ->
  returns (OrientationAgent b sid message).
Proof.
  intros Hllm [s Hs]. unfold OrientationAgent.
  rewrite (session_username_known _ _ _ Hs).
  match goal with |- context [if ?c then _ else _] => destruct c end; auto.
Qed.

Lemma ProgressAgent_returns_without_lookup (b : base) (sid message : string) :
  (forall prompt, returns (llm b prompt)) ->
  PyStr.contains "access code" (PyStr.lower message) = false ->
  returns (ProgressAgent b sid message).
Proof.
  intros Hllm Hc. unfold ProgressAgent. rewrite Hc.
  match goal with |- context [if ?c then _ else _] => destruct c end; auto.
Qed.

Lemma ProgressAgent_returns (b : base) (sid message : string) :
  (forall prompt, returns (llm b prompt)) ->
  is_Some (MemoryStore.get_session (memory b) sid) ->
  returns (ProgressAgent b sid message).
Proof.
  intros Hllm [s Hs].
  destruct (PyStr.contains "access code" (PyStr.lower message)) eqn:Hc.
  - unfold ProgressAgent. rewrite Hc, (session_username_known _ _ _ Hs).
    destruct (_ !! "access_codes") as [c|]; auto.
    destruct (PyStr.truthy c); auto.
  - now apply ProgressAgent_returns_without_lookup.
Qed.

(** C2, as the code has it. With a language-model client whose
    [generate] returns (as GeminiLLM's does), FAQAgent and
    TechSupportAgent return a string for every session id and message,
    and OrientationAgent and ProgressAgent return a string for every
    session id the store knows.  For an id the store does not know,
    OrientationAgent raises TypeError on every message, and
    ProgressAgent raises TypeError on a message containing "access code"
    and returns a string on any other message. *)
Theorem leaf_agents_handle (b : base) (sid message : string) :
  (forall prompt, returns (llm b prompt)) ->
  returns (FAQAgent b sid message) /\
  returns (TechSupportAgent b sid message) /\
  (is_Some (MemoryStore.get_session (memory b) sid) ->
   returns (OrientationAgent b sid message) /\
   returns (ProgressAgent b sid message)) /\
  (MemoryStore.get_session (memory b) sid = None ->
   OrientationAgent b sid message = Raise NoneType_subscript /\
   (PyStr.contains "access code" (PyStr.lower message) = true ->
    ProgressAgent b sid message = Raise NoneType_subscript) /\
   (PyStr.contains "access code" (PyStr.lower message) = false ->
    returns (ProgressAgent b sid message))).
Proof.
  intros Hllm.
  split; [apply FAQAgent_returns|].
  split; [now apply TechSupportAgent_returns|].
  split.
  - intros Hs. split.
    + now apply OrientationAgent_returns.
    + now apply ProgressAgent_returns.
  - intros Hs. split; [|split].
    + unfold OrientationAgent. now rewrite (session_username_unknown _ _ Hs).
    + intros Hc. unfold ProgressAgent.
      now rewrite Hc, (session_username_unknown _ _ Hs).
    + intros Hc. now apply ProgressAgent_returns_without_lookup.
Qed.

Lemma generate_unavailable_returns (prompt : string) :
  returns (GeminiLLM.generate_unavailable prompt).
Proof. unfold GeminiLLM.generate_unavailable. auto. Qed.

Lemma leaf_agents_handle_witness :
  returns (FAQAgent demo_base "sess_bob_1" "what is my access code") /\
  returns (TechSupportAgent demo_base "sess_bob_1" "what is my access code") /\
  (is_Some (MemoryStore.get_session (memory demo_base) "sess_bob_1") ->
   returns (OrientationAgent demo_base "sess_bob_1" "what is my access code") /\
   returns (ProgressAgent demo_base "sess_bob_1" "what is my access code")) /\
  (MemoryStore.get_session (memory demo_base) "sess_bob_1" = None ->
   OrientationAgent demo_base "sess_bob_1" "what is my access code"
   = Raise NoneType_subscript /\
   (PyStr.contains "access code" (PyStr.lower "what is my access code") = true ->
    ProgressAgent demo_base "sess_bob_1" "what is my access code"
    = Raise NoneType_subscript) /\
   (PyStr.contains "access code" (PyStr.lower "what is my access code") = false ->
    returns (ProgressAgent demo_base "sess_bob_1" "what is my access code"))).
Proof.
  apply (leaf_agents_handle demo_base "sess_bob_1" "what is my access code").
  exact generate_unavailable_returns.
Defined.

Example ProgressAgent_bob :
  ProgressAgent demo_base "sess_bob_1" "what is my access code"
  = Ok "Your access code: AC-222".
Proof. vm_compute. reflexivity. Qed.

Example OrientationAgent_bob :
  OrientationAgent demo_base "sess_bob_1" "how do I begin"
  = Ok "Follow the LMS orientation module and complete the orientation steps.".
Proof. vm_compute. reflexivity. Qed.

(** C2 as stated fails: for a session id the store does not know,
    OrientationAgent raises, and so does ProgressAgent when asked for an
    access code. *)
Lemma leaf_agents_unknown_session_raise :
  OrientationAgent demo_base "sess_nobody_0" "hello" = Raise NoneType_subscript /\
  ProgressAgent demo_base "sess_nobody_0" "my access code please"
  = Raise NoneType_subscript.
Proof. split; vm_compute; reflexivity. Qed.

End LeafAgentsFacts.

(** ** The generic-reply test of main.py *)

Module GenericFacts.
Import PyStr Main.
Import PyStrFacts.

Lemma startswith_spec (p s : string) :
  startswith s p = true <-> exists post, s = p +:+ post.
Proof.
  revert s. induction p as [|a p IH]; intros s.
  - split; [intros _; now exists s | destruct s; reflexivity].
  - destruct s as [|b s]; cbn [startswith].
    + split; [discriminate | intros [post H]; discriminate H].
    + rewrite andb_true_iff, IH, Ascii.eqb_eq. split.
      * intros [-> [post ->]]. now exists post.
      * intros [post H]. rewrite append_cons in H. injection H as -> ->.
        split; [reflexivity | now exists post].
Qed.

(** [contains] is Python's [in] on strings. *)
Lemma contains_spec (p s : string) : contains p s = true <-> occurs_in p s.
Proof.
  unfold occurs_in. induction s as [|c s IH].
  - cbn [contains]. rewrite orb_false_r, startswith_spec. split.
    + intros [post H]. now exists "", post.
    + intros ([|a pre] & post & H); [now exists post | discriminate H].
  - cbn [contains]. rewrite orb_true_iff, startswith_spec, IH. split.
    + intros [[post H] | (pre & post & H)].
      * now exists "", post.
      * exists (String c pre), post. rewrite append_cons. now rewrite H.
    + intros ([|a pre] & post & H).
      * left. now exists post.
      * right. rewrite append_cons in H. injection H as _ H. now exists pre, post.
Qed.

Lemma existsb_elem_of {A : Type} (f : A -> bool) (l : list A) :
  existsb f l = true <-> exists x, x ∈ l /\ f x = true.
Proof.
  rewrite existsb_exists. split; intros (x & Hx & Hf); exists x;
    (split; [now apply list_elem_of_In | exact Hf]).
Qed.

(** C7. A reply is judged generic exactly when it is empty, or one of
    the generic phrases occurs in its lower-cased text, or it has 20
    words or fewer; a longer reply in which no phrase occurs is judged
    not generic. *)
Theorem looks_generic_iff (txt : string) :
  _looks_generic_assistant txt = true <->
  txt = ""
  \/ (exists p, p ∈ generic_phrases /\ occurs_in p (lower txt))
  \/ length (split txt) <= 20.
Proof.
  unfold _looks_generic_assistant.
  destruct txt as [|c txt]; [simpl; split; auto|].
  change (negb (truthy (String c txt))) with false. cbv iota.
  destruct (existsb _ generic_phrases) eqn:Hp.
  - split; [intros _ | reflexivity]. right. left.
    apply existsb_elem_of in Hp as (p & Hin & Hc).
    exists p. split; [exact Hin | now apply contains_spec].
  - change (0 <? String.length (String c txt))%nat with true.
    rewrite andb_true_r.
    destruct (length (split (String c txt)) <=? 20)%nat eqn:Hw.
    + split; [intros _ | reflexivity]. right. right. now apply Nat.leb_le.
    + split; [discriminate|]. intros [H | [(p & Hin & Hc) | H]].
      * discriminate H.
      * assert (E : existsb (fun p => contains p (lower (String c txt)))
                            generic_phrases = true).
        { apply existsb_elem_of. exists p. split; [exact Hin|].
          now apply contains_spec. }
        rewrite E in Hp. discriminate Hp.
      * apply Nat.leb_nle in Hw. contradiction.
Qed.

Example short_specific_reply_is_generic :
  _looks_generic_assistant "Your access code: AC-222" = true.
Proof. reflexivity. Qed.

Example long_reply_is_not_generic :
  _looks_generic_assistant
    "Refunds are allowed within seven days of enrollment when less than ten percent of the course is completed and the request is sent to support together with the username"
  = false.
Proof. vm_compute. reflexivity. Qed.

End GenericFacts.

(** ** longrunning.py *)

Module LongRunningFacts.
Import LongRunning.

Lemma get_status_paused (m : manager) (job_id : string) :
  get_status m job_id = "paused" <->
  exists ref, jobs m !! job_id = Some ref /\ objects m !! ref = Some "paused".
Proof.
  unfold get_status. destruct (jobs m !! job_id) as [ref|].
  - destruct (objects m !! ref) as [st|] eqn:E; simpl.
    + split; [intros ->; eauto | intros (r & [= <-] & H); congruence].
    + split; [discriminate | intros (r & [= <-] & H); congruence].
  - split; [discriminate | intros (r & H & _); discriminate H].
Qed.

(** X29. [resume_job] returns True exactly when the job is reported
    "paused", and the job is then reported "running"; when it returns
    False the manager is unchanged. *)
Lemma resume_job_only_paused (m : manager) (job_id : string) :
  (fst (resume_job m job_id) = true <-> get_status m job_id = "paused") /\
  (fst (resume_job m job_id) = true ->
   get_status (snd (resume_job m job_id)) job_id = "running") /\
  (fst (resume_job m job_id) = false -> snd (resume_job m job_id) = m).
Proof.
  rewrite get_status_paused. unfold resume_job, get_status.
  destruct (jobs m !! job_id) as [ref|] eqn:Hj; simpl.
  - case_bool_decide as Hp; simpl; rewrite ?Hj.
    + split; [split; eauto|]. split; [|discriminate].
      intros _. rewrite list_lookup_insert_eq; [reflexivity|].
      now apply lookup_lt_Some in Hp.
    + split; [|split; auto; discriminate].
      split; [discriminate|]. intros (r & [= <-] & H). contradiction.
  - split; [|split; auto; discriminate].
    split; [discriminate | intros (r & H & _); discriminate H].
Qed.

(** [resume_job] leaves a finished job as it is. *)
Lemma resume_job_keeps_terminal (m : manager) (job_id : string) :
  get_status m job_id = "done" \/ get_status m job_id = "failed" ->
  resume_job m job_id = (false, m).
Proof.
  intros H.
  destruct (resume_job_only_paused m job_id) as ([H1 _] & _ & H3).
  destruct (fst (resume_job m job_id)) eqn:E.
  - specialize (H1 eq_refl). rewrite H1 in H. destruct H; discriminate.
  - specialize (H3 eq_refl). destruct (resume_job m job_id). simpl in *. congruence.
Qed.

(** [get_status] of an id that was never registered. *)
Lemma get_status_not_found (m : manager) (job_id : string) :
  jobs m !! job_id = None -> get_status m job_id = "not_found".
Proof. unfold get_status. now intros ->. Qed.

(** [start_job] returns the id at once, with status "running". *)
Lemma start_job_running (m : manager) (job_id : string) :
  fst (start_job m job_id) = job_id /\
  get_status (snd (start_job m job_id)) job_id = "running".
Proof.
  split; [reflexivity|]. unfold get_status, start_job. simpl.
  rewrite lookup_insert_eq. simpl.
  rewrite lookup_app_r by lia. now rewrite Nat.sub_diag.
Qed.

(** C8 on the code: a job that has ended with status "done" is paused
    by [pause_job], which returns True, and a following [resume_job]
    sets it to "running"; "done" is not terminal. *)
Theorem pause_job_after_done :
  let m := run init [Start "job1"; WrapperEnd 0 returned] in
  get_status m "job1" = "done" /\
  fst (pause_job m "job1") = true /\
  get_status (snd (pause_job m "job1")) "job1" = "paused" /\
  get_status (run m [Pause "job1"; Resume "job1"]) "job1" = "running".
Proof. vm_compute. repeat split. Qed.

End LongRunningFacts.

(** ** best_kb_match of main.py *)

Module BestMatchFacts.
Import PyStr Main.
Import PyStrFacts.

Lemma Qgt_bool_true (x y : Q) : Tools.Qgt_bool x y = true <-> (y < x)%Q.
Proof.
  unfold Tools.Qgt_bool. rewrite negb_true_iff. split.
  - intros H. apply Qnot_le_lt. intros Hle.
    apply Qle_bool_iff in Hle. congruence.
  - intros H. destruct (Qle_bool x y) eqn:E; [|reflexivity].
    apply Qle_bool_iff in E. exfalso. now apply (Qlt_not_le y x).
Qed.

Lemma Qgt_bool_false (x y : Q) : Tools.Qgt_bool x y = false <-> (x <= y)%Q.
Proof.
  unfold Tools.Qgt_bool. rewrite negb_false_iff. apply Qle_bool_iff.
Qed.

Section Search.

Variable ratio : string -> string -> Q.
Variable kb : list (string * list kb_entry).
Variable message_norm : string.

Local Abbreviation score := (score ratio message_norm).
Local Abbreviation best_so_far := (best_so_far ratio message_norm).
Local Abbreviation shares := (shares message_norm).

Lemma score_step_best (es : list kb_entry) (st : option kb_entry * Q)
  (e : kb_entry) :
  best_so_far es st -> best_so_far (es ++ [e]) (score_step ratio message_norm st e).
Proof.
  destruct st as [[b|] s]; unfold score_step; simpl;
    destruct (Tools.Qgt_bool (score e) s) eqn:Hgt.
  - (* a better entry replaces [b] *)
    apply Qgt_bool_true in Hgt.
    intros (-> & Hpos & pre & post & -> & Hpre & Hpost).
    split; [reflexivity|]. split; [now apply Qlt_trans with (score b)|].
    exists (pre ++ b :: post), []. split; [reflexivity|]. split.
    + intros x Hx. apply elem_of_app in Hx as [Hx | Hx].
      * apply Qlt_trans with (score b); auto.
      * apply elem_of_cons in Hx as [-> | Hx]; [exact Hgt|].
        apply Qle_lt_trans with (score b); auto.
    + intros x Hx. inversion Hx.
  - (* [b] stays *)
    apply Qgt_bool_false in Hgt.
    intros (-> & Hpos & pre & post & -> & Hpre & Hpost).
    split; [reflexivity|]. split; [exact Hpos|].
    exists pre, (post ++ [e]). split; [now rewrite <- app_assoc|].
    split; [exact Hpre|].
    intros x Hx. apply elem_of_app in Hx as [Hx | Hx]; auto.
    apply list_elem_of_singleton in Hx as ->. exact Hgt.
  - (* the first entry with a score above 0 *)
    apply Qgt_bool_true in Hgt. intros (-> & Hall).
    split; [reflexivity|]. split; [exact Hgt|].
    exists es, []. split; [reflexivity|]. split.
    + intros x Hx. apply Qle_lt_trans with 0%Q; auto.
    + intros x Hx. inversion Hx.
  - apply Qgt_bool_false in Hgt. intros (-> & Hall).
    split; [reflexivity|].
    intros x Hx. apply elem_of_app in Hx as [Hx | Hx]; auto.
    apply list_elem_of_singleton in Hx as ->. exact Hgt.
Qed.

Lemma foldl_best (es2 : list kb_entry) :
  forall es1 st,
    best_so_far es1 st ->
    best_so_far (es1 ++ es2) (foldl (score_step ratio message_norm) st es2).
Proof.
  induction es2 as [|e es2 IH]; intros es1 st H; simpl.
  - now rewrite app_nil_r.
  - replace (es1 ++ e :: es2) with ((es1 ++ [e]) ++ es2)
      by now rewrite <- app_assoc.
    apply IH. now apply score_step_best.
Qed.

(** The scoring loop ends with the first entry of highest score, if
    any score is above 0. *)
Lemma score_loop_best (es : list kb_entry) :
  best_so_far es (score_loop ratio message_norm es).
Proof.
  apply (foldl_best es [] (None, 0%Q)). split; [reflexivity|].
  intros e He. inversion He.
Qed.

Lemma find_first {A : Type} (f : A -> bool) (l : list A) :
  match List.find f l with
  | Some x =>
      exists pre post,
        l = pre ++ x :: post /\ f x = true /\ forall y, y ∈ pre -> f y = false
  | None => forall y, y ∈ l -> f y = false
  end.
Proof.
  induction l as [|x l IH]; simpl.
  - intros y Hy. inversion Hy.
  - destruct (f x) eqn:Hx.
    + exists [], l. split; [reflexivity|]. split; [exact Hx|].
      intros y Hy. inversion Hy.
    + destruct (List.find f l) as [z|].
      * destruct IH as (pre & post & -> & Hz & Hpre).
        exists (x :: pre), post. split; [reflexivity|]. split; [exact Hz|].
        intros y Hy. apply elem_of_cons in Hy as [-> | Hy]; auto.
      * intros y Hy. apply elem_of_cons in Hy as [-> | Hy]; auto.
Qed.

Lemma shares_token_spec (e : kb_entry) :
  shares_token (Tools.token_set message_norm) e = true <-> shares e.
Proof.
  unfold shares_token, shares, Tools.token_set.
  rewrite GenericFacts.existsb_elem_of.
  split; intros (tok & Ht & Hq); exists tok.
  - rewrite elem_of_remove_dups in Ht. split; [exact Ht|].
    now apply bool_decide_eq_true in Hq.
  - split; [now rewrite elem_of_remove_dups|]. now apply bool_decide_eq_true.
Qed.

Lemma shares_token_false (e : kb_entry) :
  shares_token (Tools.token_set message_norm) e = false <-> ~ shares e.
Proof.
  rewrite <- shares_token_spec. destruct (shares_token _ e); split; auto;
    try discriminate. intros H. now contradiction H.
Qed.

(** What the fallback loop returns. *)
Lemma token_fallback_spec (es : list kb_entry) :
  match token_fallback message_norm es with
  | Some ans =>
      exists pre b post,
        es = pre ++ b :: post /\ ans = a b /\ shares b /\
        forall e, e ∈ pre -> ~ shares e
  | None => forall e, e ∈ es -> ~ shares e
  end.
Proof.
  unfold token_fallback.
  pose proof (find_first (shares_token (Tools.token_set message_norm)) es) as H.
  destruct (List.find _ es) as [b|]; simpl.
  - destruct H as (pre & post & -> & Hb & Hpre).
    exists pre, b, post. split; [reflexivity|]. split; [reflexivity|].
    split; [now apply shares_token_spec|].
    intros e He. apply shares_token_false. auto.
  - intros e He. apply shares_token_false. auto.
Qed.

(** The search as the specification describes it: either some entry
    reaches the cutoff, and the answer is that of the first entry with
    the highest score; or no entry reaches the cutoff, and the answer is
    that of the first entry sharing a token with the message, None when
    there is no such entry. *)
Theorem search_spec (cands : list string) :
  let es := entries kb cands in
  (exists pre b post,
      es = pre ++ b :: post /\
      (cutoff <= score b)%Q /\
      (forall e, e ∈ pre -> (score e < score b)%Q) /\
      (forall e, e ∈ post -> (score e <= score b)%Q) /\
      search ratio kb cands message_norm = Some (a b))
  \/ ((forall e, e ∈ es -> (score e < cutoff)%Q) /\
      match search ratio kb cands message_norm with
      | Some ans =>
          exists pre b post,
            es = pre ++ b :: post /\ ans = a b /\ shares b /\
            forall e, e ∈ pre -> ~ shares e
      | None => forall e, e ∈ es -> ~ shares e
      end).
Proof.
  intros es. unfold search. fold es.
  pose proof (score_loop_best es) as Hbest.
  pose proof (token_fallback_spec es) as Hfall.
  destruct (score_loop ratio message_norm es) as [[b|] s]; simpl in Hbest.
  - destruct Hbest as (-> & Hpos & pre & post & Hes & Hpre & Hpost).
    destruct (Qle_bool cutoff (score b)) eqn:Hc.
    + left. apply Qle_bool_iff in Hc. exists pre, b, post. auto.
    + right. split; [|exact Hfall].
      assert (Hlt : (score b < cutoff)%Q).
      { apply Qnot_le_lt. intros Hle. apply Qle_bool_iff in Hle. congruence. }
      intros e He. rewrite Hes in He.
      apply elem_of_app in He as [He | He].
      * apply Qlt_trans with (score b); auto.
      * apply elem_of_cons in He as [-> | He]; [exact Hlt|].
        apply Qle_lt_trans with (score b); auto.
  - destruct Hbest as (-> & Hall). right. split; [|exact Hfall].
    intros e He. apply Qle_lt_trans with 0%Q; [auto | reflexivity].
Qed.

End Search.

(** *** The candidate names *)

Lemma substring_prefix (n t : string) :
  String.substring 0 (String.length n) (n +:+ t) = n.
Proof.
  induction n as [|c n IH]; app_simpl; simpl.
  - now destruct t.
  - now rewrite IH.
Qed.

Lemma append_Agent_inv (k n : string) :
  k = n +:+ "Agent" -> n = String.substring 0 (String.length k - 5) k.
Proof.
  intros ->. rewrite length_append. simpl.
  replace (String.length n + 5 - 5) with (String.length n) by lia.
  symmetry. apply substring_prefix.
Qed.

(** No name of LOCAL_KB is a name ending in "Agent" with one more
    "Agent" appended. *)
Lemma kb_get_appended (n : string) :
  endswith n "Agent" = true -> kb_get LOCAL_KB (n +:+ "Agent") = [].
Proof.
  intros H. cbn [kb_get LOCAL_KB].
  repeat match goal with
  | |- context [String.eqb ?k (n +:+ "Agent")] =>
      let E := fresh "E" in
      destruct (String.eqb k (n +:+ "Agent")) eqn:E;
        [ exfalso; apply String.eqb_eq in E; apply append_Agent_inv in E;
          rewrite E in H; vm_compute in H; discriminate H
        | clear E ]
  end.
  reflexivity.
Qed.

(** A name that is empty or was met before adds nothing. *)
Lemma unique_skip (cs : list string) :
  forall (seen : list string) (c : string),
    c = "" \/ c ∈ seen \/ c ∈ cs ->
    unique seen (cs ++ [c]) = unique seen cs.
Proof.
  induction cs as [|c0 cs IH]; intros seen c H; simpl.
  - destruct H as [-> | [H | H]]; [reflexivity | | inversion H].
    rewrite (bool_decide_eq_true_2 _ H). now rewrite andb_false_r.
  - destruct (truthy c0 && negb (bool_decide (c0 ∈ seen))) eqn:E.
    + f_equal. apply IH. destruct H as [H | [H | H]]; auto.
      * right. left. now right.
      * apply elem_of_cons in H as [-> | H]; [right; left; left | auto].
    + apply IH. destruct H as [H | [H | H]]; auto.
      apply elem_of_cons in H as [-> | H]; auto.
      apply andb_false_iff in E as [E | E].
      * left. now destruct c0.
      * right. left. apply negb_false_iff in E.
        now apply bool_decide_eq_true in E.
Qed.

(** A name without entries may be left out of the candidates. *)
Lemma entries_skip (kb : list (string * list kb_entry)) (x : string)
  (cs : list string) :
  kb_get kb x = [] ->
  forall seen,
    entries kb (unique seen (x :: cs)) = entries kb (unique seen cs)
    /\ entries kb (unique (x :: seen) cs) = entries kb (unique seen cs).
Proof.
  intros Hx.
  assert (Hseen : forall cs seen,
    entries kb (unique (x :: seen) cs) = entries kb (unique seen cs)).
  { clear cs. induction cs as [|c cs IH]; intros seen; simpl; [reflexivity|].
    destruct (truthy c) eqn:Hc; simpl; [|apply IH].
    destruct (decide (c = x)) as [-> | Hne].
    - rewrite (bool_decide_eq_true_2 (x ∈ x :: seen)) by left. simpl.
      case_bool_decide; simpl; [apply IH|].
      unfold entries in *. simpl. rewrite Hx. reflexivity.
    - case_bool_decide as H1; case_bool_decide as H2; simpl.
      + apply IH.
      + exfalso. apply H2. now apply elem_of_cons in H1 as [? | ?].
      + exfalso. apply H1. now right.
      + unfold entries in *. simpl. f_equal.
        (* the name [c] is new on both sides; [x] commutes with it *)
        assert (Hsw : forall cs s1 s2,
                   (forall y, y ∈ s1 <-> y ∈ s2) -> unique s1 cs = unique s2 cs).
        { clear. induction cs as [|c cs IH]; intros s1 s2 Hs; simpl; [reflexivity|].
          rewrite (bool_decide_ext (c ∈ s1) (c ∈ s2)) by apply Hs.
          destruct (truthy c && negb (bool_decide (c ∈ s2))).
          - f_equal. apply IH. intros y. rewrite !elem_of_cons, Hs. reflexivity.
          - now apply IH. }
        rewrite (Hsw cs (c :: x :: seen) (x :: c :: seen)).
        * apply IH.
        * intros y. rewrite !elem_of_cons. tauto. }
  intros seen. split; [|apply Hseen].
  simpl. destruct (truthy x && negb (bool_decide (x ∈ seen))); [|reflexivity].
  unfold entries. simpl. rewrite Hx. simpl. apply Hseen.
Qed.

(** On LOCAL_KB the candidate names of the code and those of the
    specification reach the same entries, as long as removing every
    "Agent" from the name, which the code does, amounts to removing the
    suffix. *)
Lemma entries_spec_candidates (n : string) :
  replace n "Agent" "" = removesuffix n "Agent" ->
  entries LOCAL_KB (final_candidates n) = entries LOCAL_KB (spec_candidates n).
Proof.
  intros Hr. unfold final_candidates, spec_candidates, candidates.
  destruct (endswith n "Agent") eqn:He; simpl ([_] ++ _).
  - rewrite Hr. cbn [negb app].
    change (unique [] [n; removesuffix n "Agent"])
      with (if truthy n && negb (bool_decide (n ∈ []))
            then n :: unique [n] [removesuffix n "Agent"]
            else unique [] [removesuffix n "Agent"]).
    change (unique [] [n; n +:+ "Agent"; removesuffix n "Agent"])
      with (if truthy n && negb (bool_decide (n ∈ []))
            then n :: unique [n] [n +:+ "Agent"; removesuffix n "Agent"]
            else unique [] [n +:+ "Agent"; removesuffix n "Agent"]).
    pose proof (kb_get_appended n He) as Hx.
    destruct (truthy n && negb (bool_decide (n ∈ []))).
    + unfold entries. cbn [map concat]. f_equal. symmetry.
      apply (entries_skip LOCAL_KB _ [removesuffix n "Agent"] Hx [n]).
    + symmetry. apply (entries_skip LOCAL_KB _ [removesuffix n "Agent"] Hx []).
  - cbn [negb app]. unfold removesuffix. rewrite He.
    symmetry. f_equal.
    apply (unique_skip [n; n +:+ "Agent"] [] n). right. right. left.
Qed.

(** Where "Agent" occurs in the name as its suffix only, [best_kb_match]
    is the search over the candidate names of the specification. *)
Lemma best_kb_match_refines (ratio : string -> string -> Q) (n message : string) :
  replace n "Agent" "" = removesuffix n "Agent" ->
  best_kb_match ratio LOCAL_KB n message
  = spec_best_kb_match ratio LOCAL_KB n message.
Proof.
  intros Hr. unfold best_kb_match, spec_best_kb_match, search.
  now rewrite (entries_spec_candidates n Hr).
Qed.

Lemma best_kb_match_refines_witness :
  best_kb_match Difflib.ratio LOCAL_KB "OrientationAgent" "How can I start?"
  = spec_best_kb_match Difflib.ratio LOCAL_KB "OrientationAgent" "How can I start?".
Proof. apply best_kb_match_refines. reflexivity. Defined.

(** The two queries of the specification's test of the matcher. *)
Example best_kb_match_case_different :
  best_kb_match Difflib.ratio LOCAL_KB "OrientationAgent" "How can I start?"
  = a <$> head (kb_get LOCAL_KB "OrientationAgent").
Proof. vm_compute. reflexivity. Qed.

Example best_kb_match_unrelated :
  best_kb_match Difflib.ratio LOCAL_KB "OrientationAgent" "zebra crossing tomorrow"
  = None.
Proof. vm_compute. reflexivity. Qed.

(** C6 on the code: the third candidate is the name with every
    occurrence of "Agent" removed, not the name with its "Agent" suffix
    removed.  For "FAQAgAgententAgent" the code reaches the list of
    "FAQAgent" and answers from it, where the candidates of the
    specification reach no list and the answer is None. *)
Theorem best_kb_match_removes_every_Agent :
  final_candidates "FAQAgAgententAgent" = ["FAQAgAgententAgent"; "FAQAgent"] /\
  spec_candidates "FAQAgAgententAgent"
  = ["FAQAgAgententAgent"; "FAQAgAgententAgentAgent"; "FAQAgAgentent"] /\
  best_kb_match Difflib.ratio LOCAL_KB "FAQAgAgententAgent" "what is the refund policy?"
  = a <$> head (kb_get LOCAL_KB "FAQAgent") /\
  spec_best_kb_match Difflib.ratio LOCAL_KB "FAQAgAgententAgent" "what is the refund policy?"
  = None.
Proof. vm_compute. repeat split. Qed.

End BestMatchFacts.

(* ===================================================================== *)
(** * Part III: further properties of the code                            *)
(* ===================================================================== *)

(** ** memory.py: what the writing methods change and what they keep *)

Module MemoryStoreMore.
Import MemoryStore.
Import MemoryStoreFacts.

(** X1. [append_history] on a known session returns; afterwards the
    session ends with the appended entry and holds between 1 and 10
    entries, its username, state and creation time are as before, and
    every other session, the long-term entries and the globals are
    untouched. *)
Theorem append_history_effect
  (m : t) (sid : string) (s : session) (now : time) (r txt : string) :
  get_session m sid = Some s ->
  exists m' s',
    append_history m sid now r txt = Ok m' /\
    get_session m' sid = Some s' /\
    last (history s') = Some (Entry now r txt) /\
    1 <= length (history s') <= 10 /\
    username s' = username s /\ state s' = state s /\ created s' = created s /\
    (forall sid', sid' <> sid -> get_session m' sid' = get_session m sid') /\
    (forall k, get_long_term m' k = get_long_term m k) /\
    (forall k, get_global m' k = get_global m k).
Proof.
  intros H. unfold get_session in H. unfold append_history. rewrite H.
  eexists _, _. split; [reflexivity|].
  split; [unfold get_session; simpl; apply lookup_insert_eq|].
  simpl. split.
  - unfold last10. rewrite drop_app_le by (rewrite length_app; simpl; lia).
    apply last_snoc.
  - split.
    + rewrite last10_length, length_app. simpl. lia.
    + repeat split; try reflexivity.
      intros sid' Hne. unfold get_session. simpl.
      now apply lookup_insert_ne.
Qed.

Lemma append_history_effect_witness :
  exists m' s',
    append_history (snd (create_session init "bob" 1%Z 1000010%N))
                   "sess_bob_1" 1200000%N "user" "hello" = Ok m' /\
    get_session m' "sess_bob_1" = Some s' /\
    last (history s') = Some (Entry 1200000%N "user" "hello") /\
    1 <= length (history s') <= 10 /\
    username s' = "bob" /\ state s' = ∅ /\ created s' = 1000010%N /\
    (forall sid', sid' <> "sess_bob_1" ->
       get_session m' sid'
       = get_session (snd (create_session init "bob" 1%Z 1000010%N)) sid') /\
    (forall k, get_long_term m' k
       = get_long_term (snd (create_session init "bob" 1%Z 1000010%N)) k) /\
    (forall k, get_global m' k
       = get_global (snd (create_session init "bob" 1%Z 1000010%N)) k).
Proof.
  apply (append_history_effect
           (snd (create_session init "bob" 1%Z 1000010%N))
           "sess_bob_1" (Session "bob" [] ∅ 1000010%N)).
  vm_compute. reflexivity.
Defined.



(** X3. [create_session] touches the record under the returned id only:
    every other session id resolves as before, and so do the long-term
    entries and the globals. *)
Theorem create_session_frame (m : t) (user : string) (n : stamp) (now' : time) :
  (forall sid, sid <> fst (create_session m user n now') ->
     get_session (snd (create_session m user n now')) sid = get_session m sid) /\
  (forall k, get_long_term (snd (create_session m user n now')) k
             = get_long_term m k) /\
  (forall k, get_global (snd (create_session m user n now')) k
             = get_global m k).
Proof.
  repeat split. intros sid Hne. unfold get_session, create_session in *.
  simpl in *. now apply lookup_insert_ne.
Qed.

(** X4. The long-term entries and the globals are two separate
    key-value stores: a key set in one reads back its value there,
    other keys there keep theirs, and the other store and the sessions
    are untouched. *)
Theorem long_term_and_globals (m : t) (key value : string) :
  (forall k, get_long_term (set_long_term m key value) k
             = if decide (k = key) then Some value else get_long_term m k) /\
  (forall k, get_global (set_long_term m key value) k = get_global m k) /\
  (forall sid, get_session (set_long_term m key value) sid = get_session m sid) /\
  (forall k, get_global (set_global m key value) k
             = if decide (k = key) then Some value else get_global m k) /\
  (forall k, get_long_term (set_global m key value) k = get_long_term m k) /\
  (forall sid, get_session (set_global m key value) sid = get_session m sid).
Proof.
  repeat split; intros k; unfold get_long_term, get_global; simpl; try reflexivity;
    (destruct (decide (k = key)) as [-> | Hne];
     [apply lookup_insert_eq | now apply lookup_insert_ne]).
Qed.



Lemma after_bounded (m : t) (c : call) : bounded m -> bounded (after m c).
Proof.
  intros Hb. destruct c as [user n now' | sid now r txt | sid key value | key value | key value];
    simpl; try exact Hb.
  - intros sid s. unfold get_session, create_session. simpl.
    destruct (decide (sid = session_id user n)) as [-> | Hne].
    + rewrite lookup_insert_eq. intros [= <-]. simpl. lia.
    + rewrite lookup_insert_ne by auto. apply Hb.
  - unfold append_history. destruct (sessions (_data m) !! sid) as [s0|] eqn:E;
      [|exact Hb].
    intros sid' s. unfold get_session. simpl.
    destruct (decide (sid' = sid)) as [-> | Hne].
    + rewrite lookup_insert_eq. intros [= <-]. simpl.
      rewrite last10_length. lia.
    + rewrite lookup_insert_ne by auto. apply Hb.
  - unfold set_session_field. destruct (sessions (_data m) !! sid) as [s0|] eqn:E;
      [|exact Hb].
    intros sid' s. unfold get_session. simpl.
    destruct (decide (sid' = sid)) as [-> | Hne].
    + rewrite lookup_insert_eq. intros [= <-]. simpl. now apply (Hb sid s0).
    + rewrite lookup_insert_ne by auto. apply Hb.
Qed.

(** X6. From a fresh store, whatever writing calls are made, no session
    ever holds more than 10 history entries. *)
Theorem history_never_exceeds_10 (calls : list call) (sid : string) (s : session) :
  get_session (foldl after init calls) sid = Some s ->
  length (history s) <= 10.
Proof.
  assert (H : forall m, bounded m -> bounded (foldl after m calls)).
  { induction calls as [|c calls IH]; intros m Hm; simpl; [exact Hm|].
    apply IH. now apply after_bounded. }
  apply (H init). intros sid' s'. unfold get_session. simpl.
  rewrite lookup_empty. discriminate.
Qed.

Lemma history_never_exceeds_10_witness :
  length (history (Session "bob" [Entry 1200000%N "user" "hello"] ∅ 1000010%N)) <= 10.
Proof.
  apply (history_never_exceeds_10
           [CreateSession "bob" 1%Z 1000010%N;
            AppendHistory "sess_bob_1" 1200000%N "user" "hello"]
           "sess_bob_1").
  vm_compute. reflexivity.
Defined.

End MemoryStoreMore.

(** ** longrunning.py: the job table *)

Module LongRunningMore.
Import LongRunning.

Lemma set_status_length (m : manager) (ref : nat) (st : string) :
  length (objects (set_status m ref st)) = length (objects m).
Proof. unfold set_status. simpl. apply length_insert. Qed.

Lemma set_status_wf (m : manager) (ref : nat) (st : string) :
  st ∈ statuses -> wf m -> wf (set_status m ref st).
Proof.
  intros Hst (H1 & H2 & H3). split; [|split].
  - intros job_id r Hr. rewrite set_status_length. now apply (H1 job_id).
  - exact H2.
  - intros x Hx. unfold set_status in Hx. simpl in Hx.
    apply list_elem_of_lookup in Hx as [i Hi].
    destruct (decide (i = ref)) as [-> | Hne].
    + destruct (decide (ref < length (objects m))) as [Hlt | Hge].
      * rewrite list_lookup_insert_eq in Hi by exact Hlt. now injection Hi as <-.
      * rewrite list_insert_ge in Hi by lia.
        apply H3. apply list_elem_of_lookup. eauto.
    + rewrite list_lookup_insert_ne in Hi by auto.
      apply H3. apply list_elem_of_lookup. eauto.
Qed.

Lemma step_wf (m : manager) (ev : event) : wf m -> wf (step m ev).
Proof.
  intros Hwf. destruct ev as [job_id | job_id | job_id | ref e]; simpl.
  - destruct Hwf as (H1 & H2 & H3). split; [|split]; simpl.
    + intros id r. rewrite length_app. simpl.
      destruct (decide (id = job_id)) as [-> | Hne].
      * rewrite lookup_insert_eq. intros [= <-]. lia.
      * rewrite lookup_insert_ne by auto. intros Hr. apply H1 in Hr. lia.
    + intros id1 id2 r.
      destruct (decide (id1 = job_id)) as [-> | Hn1];
        destruct (decide (id2 = job_id)) as [-> | Hn2];
        rewrite ?lookup_insert_eq, ?lookup_insert_ne by auto; auto.
      * intros [= <-] Hr. apply H1 in Hr. lia.
      * intros Hr [= <-]. apply H1 in Hr. lia.
      * apply H2.
    + intros st Hst. apply elem_of_app in Hst as [Hst | Hst]; [auto|].
      apply list_elem_of_singleton in Hst as ->. left.
  - unfold pause_job. destruct (jobs m !! job_id); simpl; [|exact Hwf].
    apply set_status_wf; [|exact Hwf]. right. left.
  - unfold resume_job. destruct (jobs m !! job_id); simpl; [|exact Hwf].
    case_bool_decide; simpl; [|exact Hwf].
    apply set_status_wf; [left | exact Hwf].
  - unfold wrapper_end. destruct e; simpl; [| |exact Hwf];
      (apply set_status_wf; [|exact Hwf]).
    + right; right; left.
    + right; right; right; left.
Qed.

Lemma init_wf : wf init.
Proof.
  split; [|split].
  - intros job_id ref H. simpl in H. rewrite lookup_empty in H. discriminate.
  - intros id1 id2 ref H. simpl in H. rewrite lookup_empty in H. discriminate.
  - intros st H. inversion H.
Qed.

Lemma run_wf (evs : list event) (m : manager) : wf m -> wf (run m evs).
Proof.
  revert m. induction evs as [|ev evs IH]; intros m H; simpl; [exact H|].
  apply IH. now apply step_wf.
Qed.

(** X8. Starting a job under an id again detaches the earlier job:
    when the thread of any earlier job object ends, the status reported
    for the id is still that of the new job, "running". *)
Theorem restart_detaches_old_thread
  (m : manager) (job_id : string) (ref : nat) (e : target_end) :
  ref < length (objects m) ->
  get_status (wrapper_end (snd (start_job m job_id)) ref e) job_id
  = "running".
Proof.
  intros H. unfold get_status, wrapper_end, set_status, start_job.
  destruct (written e); simpl; rewrite lookup_insert_eq; simpl.
  - rewrite list_lookup_insert_ne by lia.
    rewrite lookup_app_r by lia. now rewrite Nat.sub_diag.
  - rewrite lookup_app_r by lia. now rewrite Nat.sub_diag.
Qed.

Lemma restart_detaches_old_thread_witness :
  get_status (wrapper_end (snd (start_job (snd (start_job init "job1")) "job1"))
                          0 returned) "job1"
  = "running".
Proof.
  apply (restart_detaches_old_thread (snd (start_job init "job1")) "job1" 0
           returned).
  simpl. lia.
Defined.

Lemma get_status_registered (m : manager) (job_id : string) (ref : nat) :
  wf m -> jobs m !! job_id = Some ref ->
  exists st, objects m !! ref = Some st /\ st ∈ statuses /\ get_status m job_id = st.
Proof.
  intros (H1 & _ & H3) Hj. apply H1 in Hj as Hlt.
  apply lookup_lt_is_Some_2 in Hlt as [st Hst].
  exists st. split; [exact Hst|]. split.
  - apply H3. apply list_elem_of_lookup. eauto.
  - unfold get_status. now rewrite Hj, Hst.
Qed.

(** X9. However a manager is driven from its initial state, the status
    it reports for any id is one of "running", "paused", "done",
    "failed" and "not_found"; the default "unknown" never comes out. *)
Theorem get_status_values (evs : list event) (job_id : string) :
  get_status (run init evs) job_id ∈ statuses ++ ["not_found"].
Proof.
  pose proof (run_wf evs init init_wf) as Hwf.
  destruct (jobs (run init evs) !! job_id) as [ref|] eqn:Hj.
  - destruct (get_status_registered _ _ _ Hwf Hj) as (st & _ & Hst & ->).
    apply elem_of_app. now left.
  - rewrite (LongRunningFacts.get_status_not_found _ _ Hj).
    apply elem_of_app. right. left.
Qed.

Lemma step_jobs (m : manager) (ev : event) (job_id : string) :
  is_Some (jobs (step m ev) !! job_id) <->
  is_Some (jobs m !! job_id) \/ ev = Start job_id.
Proof.
  destruct ev as [j | j | j | ref e]; simpl.
  - destruct (decide (job_id = j)) as [-> | Hne].
    + rewrite lookup_insert_eq. split; [intros _; now right | intros _; eauto].
    + rewrite lookup_insert_ne by auto. split; [auto|].
      intros [Hs | E]; [exact Hs | injection E as E; congruence].
  - unfold pause_job. destruct (jobs m !! j); simpl;
      (split; [auto | intros [H | H]; [exact H | discriminate H]]).
  - unfold resume_job. destruct (jobs m !! j); simpl;
      [case_bool_decide as Hd; simpl|];
      (split; [auto | intros [H | H]; [exact H | discriminate H]]).
  - unfold wrapper_end. destruct (written e); simpl;
      (split; [auto | intros [H | H]; [exact H | discriminate H]]).
Qed.

Lemma run_jobs (evs : list event) (m : manager) (job_id : string) :
  is_Some (jobs (run m evs) !! job_id) <->
  is_Some (jobs m !! job_id) \/ Start job_id ∈ evs.
Proof.
  revert m. induction evs as [|ev evs IH]; intros m; simpl.
  - split; [auto | intros [H | H]; [exact H | inversion H]].
  - unfold run in IH. rewrite IH, step_jobs, elem_of_cons. split.
    + intros [[H | ->] | H]; auto.
    + intros [H | [<- | H]]; auto.
Qed.

(** X10. A job id is reported "not_found" exactly as long as no job was
    started under it: jobs are never removed from the table, and pause,
    resume and thread ends register nothing. *)
Theorem not_found_iff_never_started (evs : list event) (job_id : string) :
  get_status (run init evs) job_id = "not_found" <-> Start job_id ∉ evs.
Proof.
  pose proof (run_wf evs init init_wf) as Hwf.
  pose proof (run_jobs evs init job_id) as Hj.
  destruct (jobs (run init evs) !! job_id) as [ref|] eqn:E.
  - destruct (get_status_registered _ _ _ Hwf E) as (st & _ & Hst & ->).
    split.
    + intros ->. exfalso. vm_compute in Hst.
      repeat (apply elem_of_cons in Hst as [Hst | Hst]; [discriminate Hst|]).
      inversion Hst.
    + intros Hn. exfalso. apply Hn.
      destruct (proj1 Hj (ltac:(eauto))) as [[x Hx] | H]; [|exact H].
      simpl in Hx. rewrite lookup_empty in Hx. discriminate.
  - rewrite (LongRunningFacts.get_status_not_found _ _ E).
    split; [|reflexivity]. intros _ Hin.
    destruct (proj2 Hj (or_intror Hin)) as [x Hx]. discriminate.
Qed.

Lemma get_status_set_other (m : manager) (ref ref' : nat) (st : string)
  (job_id : string) :
  jobs m !! job_id = Some ref' -> ref' <> ref ->
  get_status (set_status m ref st) job_id = get_status m job_id.
Proof.
  intros Hj Hne. unfold get_status, set_status. simpl. rewrite Hj.
  now rewrite list_lookup_insert_ne by auto.
Qed.

(** X11. In a manager driven from its initial state, pausing, resuming
    or starting a job leaves the status reported for every other id as
    it was. *)
Theorem other_jobs_untouched (evs : list event) (id1 id2 : string) :
  id1 <> id2 ->
  let m := run init evs in
  get_status (snd (pause_job m id1)) id2 = get_status m id2 /\
  get_status (snd (resume_job m id1)) id2 = get_status m id2 /\
  get_status (snd (start_job m id1)) id2 = get_status m id2.
Proof.
  intros Hne m. pose proof (run_wf evs init init_wf) as Hwf. fold m in Hwf.
  assert (Hset : forall ref st, jobs m !! id1 = Some ref ->
            get_status (set_status m ref st) id2 = get_status m id2).
  { intros ref st H1. destruct (jobs m !! id2) as [ref2|] eqn:H2.
    - apply (get_status_set_other m ref ref2); [exact H2|].
      intros ->. destruct Hwf as (_ & Hinj & _).
      apply Hne. now apply (Hinj id1 id2 ref).
    - unfold get_status, set_status. simpl. now rewrite H2. }
  split; [|split].
  - unfold pause_job. destruct (jobs m !! id1) eqn:H1; simpl; auto.
  - unfold resume_job. destruct (jobs m !! id1) eqn:H1; simpl; auto.
    case_bool_decide; simpl; auto.
  - unfold get_status, start_job. simpl.
    rewrite lookup_insert_ne by auto.
    destruct (jobs m !! id2) as [ref2|] eqn:H2; [|reflexivity].
    destruct Hwf as (Hlt & _). apply Hlt in H2.
    now rewrite lookup_app_l by exact H2.
Qed.

Lemma other_jobs_untouched_witness :
  let m := run init [Start "job1"; Start "job2"] in
  get_status (snd (pause_job m "job1")) "job2" = get_status m "job2" /\
  get_status (snd (resume_job m "job1")) "job2" = get_status m "job2" /\
  get_status (snd (start_job m "job1")) "job2" = get_status m "job2".
Proof.
  apply (other_jobs_untouched [Start "job1"; Start "job2"] "job1" "job2").
  discriminate.
Defined.

Lemma step_untouched (m : manager) (ev : event) (job_id : string)
  (ref : nat) (st : string) :
  wf m -> jobs m !! job_id = Some ref -> objects m !! ref = Some st ->
  touches job_id ref ev = false ->
  jobs (step m ev) !! job_id = Some ref /\ objects (step m ev) !! ref = Some st.
Proof.
  intros (Hlt & Hinj & _) Hj Ho Ht.
  assert (Hother : forall j r, j <> job_id -> jobs m !! j = Some r -> r <> ref).
  { intros j r Hne Hr ->. apply Hne. now apply (Hinj j job_id ref). }
  destruct ev as [j | j | j | r e]; simpl in *.
  - apply String.eqb_neq in Ht. rewrite lookup_insert_ne by auto.
    split; [exact Hj|]. apply Hlt in Hj. now rewrite lookup_app_l by exact Hj.
  - apply String.eqb_neq in Ht. unfold pause_job.
    destruct (jobs m !! j) as [r|] eqn:Hr; simpl; [|auto].
    split; [exact Hj|]. rewrite list_lookup_insert_ne; [exact Ho|].
    now apply (Hother j).
  - apply String.eqb_neq in Ht. unfold resume_job.
    destruct (jobs m !! j) as [r|] eqn:Hr; simpl; [|auto].
    case_bool_decide as Hd; simpl; [|auto].
    split; [exact Hj|]. rewrite list_lookup_insert_ne; [exact Ho|].
    now apply (Hother j).
  - apply Nat.eqb_neq in Ht. unfold wrapper_end.
    destruct (written e); simpl; [|auto].
    split; [exact Hj|]. now rewrite list_lookup_insert_ne by exact Ht.
Qed.

(** Events that touch neither the id nor its job object leave the job
    as it is. *)
Lemma run_untouched (evs : list event) (job_id : string) (ref : nat)
  (st : string) :
  forall m,
    wf m -> jobs m !! job_id = Some ref -> objects m !! ref = Some st ->
    untouched job_id ref evs ->
    wf (run m evs) /\
    jobs (run m evs) !! job_id = Some ref /\
    objects (run m evs) !! ref = Some st.
Proof.
  unfold untouched.
  induction evs as [|ev evs IH]; intros m Hwf Hj Ho Hu; simpl in *; [auto|].
  apply andb_true_iff in Hu as [Hev Hu]. apply negb_true_iff in Hev.
  destruct (step_untouched m ev job_id ref st Hwf Hj Ho Hev) as [Hj' Ho'].
  apply IH; auto. now apply step_wf.
Qed.

Lemma get_status_at (m : manager) (job_id : string) (ref : nat) (st : string) :
  jobs m !! job_id = Some ref -> objects m !! ref = Some st ->
  get_status m job_id = st.
Proof. intros Hj Ho. unfold get_status. now rewrite Hj, Ho. Qed.

(** X7. [start_job] returns the id it was given and registers a job
    that is reported "running" for as long as neither its thread has
    written nor a call was made for the id, whatever happens to other
    jobs; the write of its thread, which may come at any time, makes it
    "done" when the target returned and "failed" when it raised an
    exception derived from Exception; a target that raises anything
    else writes nothing, and the job goes on being reported
    "running". *)
Theorem job_lifecycle
  (evs0 evs : list event) (job_id : string) (e : target_end) :
  untouched job_id (length (objects (run init evs0))) evs ->
  let m := run init evs0 in
  let ref := length (objects m) in
  let m1 := run (snd (start_job m job_id)) evs in
  fst (start_job m job_id) = job_id /\
  get_status m1 job_id = "running" /\
  get_status (wrapper_end m1 ref e) job_id =
    match e with
    | returned => "done"
    | raised_Exception => "failed"
    | raised_other => "running"
    end.
Proof.
  intros Hu m ref m1.
  assert (Hwf : wf (snd (start_job m job_id))).
  { apply (step_wf m (Start job_id)). apply run_wf, init_wf. }
  assert (Hj : jobs (snd (start_job m job_id)) !! job_id = Some ref).
  { unfold start_job. simpl. apply lookup_insert_eq. }
  assert (Ho : objects (snd (start_job m job_id)) !! ref = Some "running").
  { unfold start_job. simpl. rewrite lookup_app_r by (unfold ref; lia).
    unfold ref. now rewrite Nat.sub_diag. }
  destruct (run_untouched evs job_id ref "running" _ Hwf Hj Ho Hu)
    as (_ & Hj1 & Ho1).
  fold m1 in Hj1, Ho1.
  split; [reflexivity|]. split; [now apply (get_status_at m1 job_id ref)|].
  assert (Hlt : ref < length (objects m1)) by (apply lookup_lt_Some in Ho1; exact Ho1).
  unfold wrapper_end. destruct e; simpl.
  - apply (get_status_at _ job_id ref); [exact Hj1|].
    unfold set_status. simpl. now apply list_lookup_insert_eq.
  - apply (get_status_at _ job_id ref); [exact Hj1|].
    unfold set_status. simpl. now apply list_lookup_insert_eq.
  - now apply (get_status_at m1 job_id ref).
Qed.

Lemma job_lifecycle_witness :
  let m := run init [Start "job0"] in
  let m1 := run (snd (start_job m "job1")) [Pause "job0"; Start "job2"] in
  fst (start_job m "job1") = "job1" /\
  get_status m1 "job1" = "running" /\
  get_status (wrapper_end m1 (length (objects m)) raised_other) "job1" = "running".
Proof.
  apply (job_lifecycle [Start "job0"] [Pause "job0"; Start "job2"] "job1"
           raised_other).
  reflexivity.
Defined.

(** X12. In a manager driven from its initial state, for a job that
    was started, [pause_job] returns True and the job is reported
    "paused", whatever its status was before.  A [resume_job] that
    follows returns True and makes it "running" if the job's thread has
    not written in between and no other call was made for the id
    (other jobs may be started, paused, resumed or end); if the job's
    thread has written in between, the job is reported "done" or
    "failed", and [resume_job] returns False and leaves it so. *)
Theorem pause_then_resume
  (evs0 evs : list event) (job_id : string) (ref : nat) (e : target_end) :
  jobs (run init evs0) !! job_id = Some ref ->
  untouched job_id ref evs ->
  let m := run init evs0 in
  let m2 := run (snd (pause_job m job_id)) evs in
  fst (pause_job m job_id) = true /\
  get_status (snd (pause_job m job_id)) job_id = "paused" /\
  fst (resume_job m2 job_id) = true /\
  get_status (snd (resume_job m2 job_id)) job_id = "running" /\
  (forall st, written e = Some st ->
     get_status (wrapper_end m2 ref e) job_id = st /\
     resume_job (wrapper_end m2 ref e) job_id = (false, wrapper_end m2 ref e)).
Proof.
  intros Hj Hu m m2.
  pose proof (run_wf evs0 init init_wf) as Hwf. fold m in Hwf, Hj.
  assert (Href : ref < length (objects m)) by (destruct Hwf as (Hlt & _); eauto).
  assert (Hpm : snd (pause_job m job_id) = set_status m ref "paused")
    by (unfold pause_job; now rewrite Hj).
  assert (Hwf1 : wf (snd (pause_job m job_id))) by apply (step_wf m (Pause job_id) Hwf).
  assert (Hj1 : jobs (snd (pause_job m job_id)) !! job_id = Some ref)
    by (rewrite Hpm; exact Hj).
  assert (Ho1 : objects (snd (pause_job m job_id)) !! ref = Some "paused")
    by (rewrite Hpm; unfold set_status; simpl; now apply list_lookup_insert_eq).
  split; [unfold pause_job; now rewrite Hj|].
  split; [now apply (get_status_at _ job_id ref)|].
  destruct (run_untouched evs job_id ref "paused" _ Hwf1 Hj1 Ho1 Hu)
    as (Hwf2 & Hj2 & Ho2).
  fold m2 in Hwf2, Hj2, Ho2.
  destruct (LongRunningFacts.resume_job_only_paused m2 job_id) as (H1 & H2 & _).
  assert (Hp : get_status m2 job_id = "paused") by now apply (get_status_at m2 job_id ref).
  apply H1 in Hp. split; [exact Hp|]. split; [now apply H2|].
  intros st Hst.
  assert (Hlt : ref < length (objects m2)) by (apply lookup_lt_Some in Ho2; exact Ho2).
  assert (Hs : get_status (wrapper_end m2 ref e) job_id = st).
  { unfold wrapper_end. rewrite Hst.
    apply (get_status_at _ job_id ref); [exact Hj2|].
    unfold set_status. simpl. now apply list_lookup_insert_eq. }
  split; [exact Hs|].
  apply LongRunningFacts.resume_job_keeps_terminal. rewrite Hs.
  destruct e; simpl in Hst; injection Hst as <- || discriminate Hst; auto.
Qed.

Lemma pause_then_resume_witness :
  let m := run init [Start "job1"] in
  let m2 := run (snd (pause_job m "job1")) [Start "job2"; Pause "job2"] in
  fst (pause_job m "job1") = true /\
  get_status (snd (pause_job m "job1")) "job1" = "paused" /\
  fst (resume_job m2 "job1") = true /\
  get_status (snd (resume_job m2 "job1")) "job1" = "running" /\
  (forall st, written returned = Some st ->
     get_status (wrapper_end m2 0 returned) "job1" = st /\
     resume_job (wrapper_end m2 0 returned) "job1"
     = (false, wrapper_end m2 0 returned)).
Proof.
  apply (pause_then_resume [Start "job1"] [Start "job2"; Pause "job2"] "job1" 0
           returned); reflexivity.
Defined.

End LongRunningMore.

(** ** agents.py: the composites *)

Module AgentsMore.
Import Agents.
Import AgentsFacts.

(** X13. A sequential composite over two lists of agents one after the
    other is the composite of the first list feeding its output to the
    composite of the second; what the first raises is the outcome. *)
Theorem SequentialAgent_compose (xs ys : list handler) (sid state : string) :
  SequentialAgent (xs ++ ys) sid state =
  match SequentialAgent xs sid state with
  | Ok state' => SequentialAgent ys sid state'
  | Raise e => Raise e
  end.
Proof. apply SequentialAgent_app. Qed.

(** X14. A sequential composite raises exactly when one of its stages
    raises on the output of the stages before it, all of which returned;
    the exception is that stage's, and the stages after it play no part. *)
Theorem SequentialAgent_raises_iff
  (agents : list handler) (sid state : string) (e : exn) :
  SequentialAgent agents sid state = Raise e <->
  exists before a after state',
    agents = before ++ a :: after /\
    SequentialAgent before sid state = Ok state' /\
    a sid state' = Raise e.
Proof.
  split.
  - revert state. induction agents as [|a agents IH]; intros state H; simpl in H.
    + discriminate H.
    + destruct (a sid state) as [s1|e1] eqn:Ha.
      * destruct (IH _ H) as (before & a' & after & state' & -> & Hb & Ha').
        exists (a :: before), a', after, state'.
        split; [reflexivity|]. split; [simpl; now rewrite Ha | exact Ha'].
      * injection H as ->. exists [], a, agents, state. now repeat split.
  - intros (before & a & after & state' & -> & Hb & Ha).
    now apply SequentialAgent_propagates with state'.
Qed.

(** X15. A parallel composite without members returns the empty string,
    and one with a single member returns that member's result, or its
    error text when it raised an exception derived from Exception, or
    the empty string when it raised any other exception, with no
    separator: in these cases the output does not depend on the
    threads. *)
Theorem ParallelAgent_small (sid message : string) :
  (forall out, ParallelAgent_run [] sid message out <-> out = "") /\
  (forall a out,
      ParallelAgent_run [a] sid message out <->
      out = match a sid message with
            | Returned r => r
            | RaisedException e => "Agent error: " +:+ exn_str e
            | RaisedOther => ""
            end).
Proof.
  split.
  - intros out. unfold ParallelAgent_run. simpl. split.
    + intros (results & Hr & ->). apply joined_iff in Hr.
      apply Permutation_nil_r in Hr. now subst.
    + intros ->. exists []. split; [constructor | reflexivity].
  - intros a out. unfold ParallelAgent_run. simpl. unfold appended.
    destruct (a sid message) as [r | e |]; simpl; split.
    + intros (results & Hr & ->). apply joined_iff in Hr.
      apply Permutation_singleton_r in Hr. now subst.
    + intros ->. exists [r]. split; [now apply joined_iff | reflexivity].
    + intros (results & Hr & ->). apply joined_iff in Hr.
      apply Permutation_singleton_r in Hr. now subst.
    + intros ->. eexists [_]. split; [now apply joined_iff | reflexivity].
    + intros (results & Hr & ->). apply joined_iff in Hr.
      apply Permutation_nil_r in Hr. now subst.
    + intros ->. exists []. split; [constructor | reflexivity].
Qed.

End AgentsMore.

(** ** root_agent.py: RootAgent.route *)

Module RootAgentFacts.
Import Agents RootAgent.
Import LeafAgentsFacts.

(** The leaf agents read the store for the username of the session
    only. *)
Lemma subagent_same_username (c : choice) (b b' : base) (sid message : string) :
  llm b' = llm b -> student_db b' = student_db b ->
  session_username b' sid = session_username b sid ->
  subagent c b' sid message = subagent c b sid message.
Proof.
  intros Hl Hd Hu.
  destruct c; simpl; unfold OrientationAgent, TechSupportAgent, ProgressAgent,
    FAQAgent; rewrite ?Hl, ?Hd, ?Hu; reflexivity.
Qed.

Lemma subagent_returns (c : choice) (b : base) (sid message : string) :
  (forall prompt, returns (llm b prompt)) ->
  is_Some (MemoryStore.get_session (memory b) sid) ->
  returns (subagent c b sid message).
Proof.
  intros Hllm Hs. destruct c; simpl.
  - now apply OrientationAgent_returns.
  - now apply TechSupportAgent_returns.
  - now apply ProgressAgent_returns.
  - apply FAQAgent_returns.
Qed.

(** X16. [route] for a session the store knows, with a language-model
    client that returns: the reply is what the chosen agent returns, and
    the session's history gains the user's message and then the reply,
    cut to the last 10 entries; the username stays. *)
Theorem route_known_session
  (b : base) (sid message : string) (now now' : MemoryStore.time)
  (s : MemoryStore.session) :
  (forall prompt, returns (llm b prompt)) ->
  MemoryStore.get_session (memory b) sid = Some s ->
  exists r s',
    subagent (choose message) b sid message = Ok r /\
    fst (route b sid message now now') = r /\
    MemoryStore.get_session (snd (route b sid message now now')) sid = Some s' /\
    MemoryStore.history s' =
      MemoryStore.last10
        (MemoryStore.history s
         ++ [MemoryStore.Entry now "user" message;
             MemoryStore.Entry now' "assistant" r]) /\
    MemoryStore.username s' = MemoryStore.username s.
Proof.
  intros Hllm Hs.
  destruct (subagent_returns (choose message) b sid message Hllm) as [r Hr];
    [now rewrite Hs|].
  destruct (MemoryStoreFacts.append_history_known (memory b) sid s now "user"
              message Hs) as (m1 & E1 & G1).
  pose (b1 := Base (llm b) (student_db b) m1).
  assert (Hr1 : subagent (choose message) b1 sid message = Ok r).
  { rewrite <- Hr. apply subagent_same_username; try reflexivity.
    unfold session_username. simpl. now rewrite G1, Hs. }
  destruct (MemoryStoreFacts.append_history_known m1 sid _ now' "assistant" r G1)
    as (m2 & E2 & G2).
  exists r, (MemoryStore.Session (MemoryStore.username s)
               (MemoryStore.last10
                  (MemoryStore.last10
                     (MemoryStore.history s ++ [MemoryStore.Entry now "user" message])
                   ++ [MemoryStore.Entry now' "assistant" r]))
               (MemoryStore.state s) (MemoryStore.created s)).
  unfold route, try_append. rewrite E1. fold b1. rewrite Hr1. simpl.
  rewrite E2. split; [exact Hr|]. split; [reflexivity|].
  split; [exact G2|]. simpl. split; [|reflexivity].
  rewrite MemoryStoreFacts.last10_app_last10. now rewrite <- app_assoc.
Qed.

Lemma route_known_session_witness :
  exists r s',
    subagent (choose "what is my access code") demo_base "sess_bob_1"
             "what is my access code" = Ok r /\
    fst (route demo_base "sess_bob_1" "what is my access code" 2000000%N 2000020%N)
    = r /\
    MemoryStore.get_session
      (snd (route demo_base "sess_bob_1" "what is my access code"
                  2000000%N 2000020%N)) "sess_bob_1" = Some s' /\
    MemoryStore.history s' =
      MemoryStore.last10
        ([] ++ [MemoryStore.Entry 2000000%N "user" "what is my access code";
                MemoryStore.Entry 2000020%N "assistant" r]) /\
    MemoryStore.username s' = "bob".
Proof.
  apply (route_known_session demo_base "sess_bob_1" "what is my access code"
           2000000%N 2000020%N (MemoryStore.Session "bob" [] ∅ 1000010%N)).
  - exact generate_unavailable_returns.
  - vm_compute. reflexivity.
Defined.

(** X17. [route] for a session id the store does not know never raises
    and records nothing: the store is left as it was, the reply is what
    the chosen agent returns, and it is the fixed apology when the
    agent raised, as the orientation agent always does then. *)
Theorem route_unknown_session
  (b : base) (sid message : string) (now now' : MemoryStore.time) :
  MemoryStore.get_session (memory b) sid = None ->
  snd (route b sid message now now') = memory b /\
  fst (route b sid message now now') =
    match subagent (choose message) b sid message with
    | Ok r => r
    | Raise _ => apology
    end /\
  (choose message = orientation -> fst (route b sid message now now') = apology).
Proof.
  intros Hs. unfold MemoryStore.get_session in Hs.
  assert (E : forall t r txt, try_append (memory b) sid t r txt = memory b).
  { intros t r txt. unfold try_append, MemoryStore.append_history. now rewrite Hs. }
  unfold route. rewrite !E. simpl.
  assert (Hb : Base (llm b) (student_db b) (memory b) = b) by now destruct b.
  rewrite Hb. split; [reflexivity|]. split; [reflexivity|].
  intros ->. simpl. unfold OrientationAgent, session_username, MemoryStore.get_session.
  now rewrite Hs.
Qed.

Lemma route_unknown_session_witness :
  snd (route demo_base "sess_nobody_0" "where is the orientation" 5%N 6%N)
  = memory demo_base /\
  fst (route demo_base "sess_nobody_0" "where is the orientation" 5%N 6%N) =
    match subagent (choose "where is the orientation") demo_base "sess_nobody_0"
                   "where is the orientation" with
    | Ok r => r
    | Raise _ => apology
    end /\
  (choose "where is the orientation" = orientation ->
   fst (route demo_base "sess_nobody_0" "where is the orientation" 5%N 6%N)
   = apology).
Proof.
  apply (route_unknown_session demo_base "sess_nobody_0" "where is the orientation").
  vm_compute. reflexivity.
Defined.

End RootAgentFacts.

(** ** main.py: the routers and the fallback of ask *)

Module RouterFacts.
Import PyStr Main Router.
Import PyStrFacts GenericFacts.

Lemma lower_char_idem (c : ascii) : lower_char (lower_char c) = lower_char c.
Proof.
  destruct c as [b0 b1 b2 b3 b4 b5 b6 b7];
    destruct b0, b1, b2, b3, b4, b5, b6, b7; reflexivity.
Qed.

Lemma lower_idem (s : string) : lower (lower s) = lower s.
Proof.
  induction s as [|c s IH]; simpl; [reflexivity|].
  now rewrite lower_char_idem, IH.
Qed.

(** Both routers look at the message in lower case only: changing
    the case of letters in a message does not change the agent it is
    routed to. *)
Theorem routers_ignore_case (m1 m2 : string) :
  lower m1 = lower m2 ->
  local_route_message m1 = local_route_message m2 /\
  RootAgent.choose m1 = RootAgent.choose m2.
Proof.
  intros H. unfold local_route_message, RootAgent.choose. now rewrite H.
Qed.

Lemma routers_ignore_case_witness :
  local_route_message "I FORGOT my Password" = local_route_message "i forgot my password" /\
  RootAgent.choose "I FORGOT my Password" = RootAgent.choose "i forgot my password".
Proof. apply routers_ignore_case. reflexivity. Defined.

(** X18. The local router returns names that have a list in LOCAL_KB
    only ("FAQAgent" when no keyword occurs), so the knowledge-base
    search that follows it always has entries to search. *)
Theorem local_route_message_in_kb (message : string) :
  local_route_message message ∈ LOCAL_KB.*1 /\
  kb_get LOCAL_KB (local_route_message message) <> [].
Proof.
  unfold local_route_message.
  repeat match goal with
         | |- context [if ?c then _ else _] => destruct c
         end; (split; [vm_compute; set_solver | vm_compute; discriminate]).
Qed.

Lemma contains_longer (p q t : string) :
  contains (p +:+ q) t = true -> contains p t = true.
Proof.
  rewrite !contains_spec. intros (pre & post & ->).
  exists pre, (q +:+ post). now rewrite append_assoc.
Qed.

(** X19. A message that RootAgent.route sends to the orientation agent
    is sent to "OrientationAgent" by the local router as well. *)
Theorem orientation_routes_agree (message : string) :
  RootAgent.choose message = RootAgent.orientation ->
  local_route_message message = "OrientationAgent".
Proof.
  unfold RootAgent.choose, local_route_message.
  destruct (existsb _ ["orientation"; "onboarding"]) eqn:E.
  - intros _. cbn [existsb] in E |- *.
    rewrite orb_false_r in E. apply orb_true_iff in E as [E | E].
    + now rewrite E.
    + apply (contains_longer "onboard" "ing") in E. rewrite E.
      now rewrite !orb_true_r.
  - repeat match goal with
           | |- context [if ?c then _ else _] => destruct c
           end; discriminate.
Qed.

Lemma orientation_routes_agree_witness :
  local_route_message "Tell me about onboarding" = "OrientationAgent".
Proof. apply orientation_routes_agree. reflexivity. Defined.

Section Ask.

Variable ratio : string -> string -> Q.
Variable kb : list (string * list kb_entry).

Local Abbreviation try_kb := (try_kb ratio kb).
Local Abbreviation step2 := (step2 ratio kb).
Local Abbreviation step3 := (step3 ratio kb).
Local Abbreviation ask_fallback := (ask_fallback ratio kb).
Local Abbreviation settled := (settled ratio kb).

Lemma try_kb_cases (agent_name message : string) (st : string * bool) :
  try_kb agent_name message st = st \/
  exists ans,
    best_kb_match ratio kb agent_name message = Some ans /\
    truthy ans = true /\
    try_kb agent_name message st = (ans, true).
Proof.
  unfold Router.try_kb.
  destruct (best_kb_match ratio kb agent_name message) as [ans|]; [|now left].
  destruct (truthy ans) eqn:E; [right; now exists ans | now left].
Qed.

Lemma try_kb_settled (reply_text agent_name message : string) :
  settled reply_text agent_name message
          (try_kb agent_name message (reply_text, false)).
Proof.
  destruct (try_kb_cases agent_name message (reply_text, false))
    as [-> | (ans & H1 & H2 & ->)]; unfold settled; simpl; auto.
Qed.

Lemma step2_settled (agent_name reply_text message : string) :
  settled reply_text (fst (step2 agent_name reply_text message)) message
          (snd (step2 agent_name reply_text message)).
Proof.
  unfold Router.step2.
  repeat match goal with
         | |- context [if ?c then _ else _] => destruct c
         end; simpl; try apply try_kb_settled; reflexivity.
Qed.

Lemma step3_settled (reply_text agent_name message : string) (st : string * bool) :
  settled reply_text agent_name message st ->
  settled reply_text agent_name message (step3 agent_name message st).
Proof.
  intros H. unfold Router.step3.
  destruct (truthy (fst st)) eqn:E; simpl; [exact H|].
  destruct st as [rep used]. simpl in E.
  destruct used.
  - destruct H as [_ H]. simpl in H. congruence.
  - unfold settled in H. simpl in H. subst rep.
    apply try_kb_settled.
Qed.

(** X20. The reply that [ask] ends with is never empty; when it is
    marked as a knowledge-base answer, it is the answer [best_kb_match]
    gives for the agent name that is reported with it; when it is not,
    it is the reply that came in or, if that was empty, the fixed
    reply of last resort. *)
Theorem ask_fallback_reply (agent_name reply_text message : string) :
  let '(agent, reply, used) := ask_fallback agent_name reply_text message in
  reply <> "" /\
  (used = true -> best_kb_match ratio kb agent message = Some reply) /\
  (used = false ->
   reply = (if truthy reply_text then reply_text else final_fallback)).
Proof.
  unfold Router.ask_fallback.
  pose proof (step2_settled agent_name reply_text message) as H2.
  destruct (step2 agent_name reply_text message) as [agent st2]. simpl in H2.
  apply step3_settled in H2.
  destruct (step3 agent message st2) as [rep used]. simpl.
  unfold settled in H2. simpl in H2. unfold step4.
  destruct used.
  - destruct H2 as [H2 Ht]. rewrite Ht. simpl.
    split; [now destruct rep|]. split; [auto | discriminate].
  - subst rep. destruct reply_text; simpl.
    + split; [discriminate|]. split; [discriminate | reflexivity].
    + split; [discriminate|]. split; [discriminate | reflexivity].
Qed.

(** X21. A non-empty reply that came with an agent name other than
    "Assistant" is never replaced: [ask] passes the name and the reply
    on as they are, not marked as a knowledge-base answer. *)
Theorem ask_fallback_keeps_attributed (agent_name reply_text message : string) :
  agent_name <> "" -> agent_name <> "Assistant" -> reply_text <> "" ->
  ask_fallback agent_name reply_text message = (agent_name, reply_text, false).
Proof.
  intros H1 H2 H3. unfold Router.ask_fallback, Router.step2, Router.step3, step4.
  apply String.eqb_neq in H1, H2. rewrite H1, H2. simpl.
  destruct reply_text; [contradiction | reflexivity].
Qed.

Lemma isspace_no_words (s : string) :
  forallb is_space (to_list s) = true -> split s = [].
Proof.
  unfold split. induction s as [|c s IH]; simpl; [reflexivity|].
  intros H. apply andb_true_iff in H as [Hc Hs]. rewrite Hc. simpl. now apply IH.
Qed.

(** X22. A reply without agent attribution that the generic test lets
    through (more than 20 words, none of the phrases) is passed on as
    it is, with the agent name it came with. *)
Theorem ask_fallback_keeps_specific (agent_name reply_text message : string) :
  _looks_generic_assistant reply_text = false ->
  ask_fallback agent_name reply_text message = (agent_name, reply_text, false).
Proof.
  intros Hg.
  assert (Hne : truthy reply_text = true).
  { destruct reply_text; [discriminate Hg | reflexivity]. }
  assert (Hsp : isspace reply_text = false).
  { unfold isspace. rewrite Hne. simpl.
    destruct (forallb is_space (to_list reply_text)) eqn:E; [|reflexivity].
    apply isspace_no_words in E.
    unfold _looks_generic_assistant in Hg. rewrite Hne, E in Hg.
    change (negb true) with false in Hg. cbv iota zeta in Hg.
    destruct (existsb _ generic_phrases); [discriminate Hg|].
    destruct reply_text; [discriminate Hne | discriminate Hg]. }
  unfold Router.ask_fallback, Router.step2, Router.step3, step4.
  rewrite Hne, Hsp, Hg. simpl.
  destruct (_ || _); simpl; rewrite Hne; simpl; now rewrite Hne.
Qed.

End Ask.

Lemma ask_fallback_keeps_attributed_witness :
  ask_fallback Difflib.ratio LOCAL_KB "TechSupportAgent" "Use the reset link." "help"
  = ("TechSupportAgent", "Use the reset link.", false).
Proof. apply ask_fallback_keeps_attributed; discriminate. Defined.

Lemma ask_fallback_keeps_specific_witness :
  ask_fallback Difflib.ratio LOCAL_KB "Assistant"
    "Refunds are allowed within seven days of enrollment when less than ten percent of the course is completed and the request is sent to support together with the username"
    "refund"
  = ("Assistant",
     "Refunds are allowed within seven days of enrollment when less than ten percent of the course is completed and the request is sent to support together with the username",
     false).
Proof. apply ask_fallback_keeps_specific. vm_compute. reflexivity. Defined.

End RouterFacts.

(** ** main.py: where the answers of best_kb_match come from *)

Module BestMatchMore.
Import PyStr Main.
Import BestMatchFacts.

Lemma unique_subset (cs seen : list string) (c : string) :
  c ∈ unique seen cs -> c ∈ cs.
Proof.
  revert seen. induction cs as [|c0 cs IH]; intros seen H; simpl in H.
  - inversion H.
  - destruct (truthy c0 && negb (bool_decide (c0 ∈ seen))).
    + apply elem_of_cons in H as [-> | H]; [left | right; eauto].
    + right. eauto.
Qed.

Lemma entries_elem (kb : list (string * list kb_entry)) (cands : list string)
  (e : kb_entry) :
  e ∈ entries kb cands -> exists c, c ∈ cands /\ e ∈ kb_get kb c.
Proof.
  unfold entries. induction cands as [|c cands IH]; simpl; intros H.
  - inversion H.
  - apply elem_of_app in H as [H | H].
    + exists c. split; [left | exact H].
    + destruct (IH H) as (c' & Hc & He). exists c'. split; [now right | exact He].
Qed.

(** X23. [best_kb_match] never makes up an answer: what it returns is
    the answer of an entry that LOCAL_KB lists under one of the
    candidate names, and for the empty message it returns None. *)
Theorem best_kb_match_answers_from_kb
  (ratio : string -> string -> Q) (kb : list (string * list kb_entry))
  (agent_name message ans : string) :
  best_kb_match ratio kb agent_name message = Some ans ->
  message <> "" /\
  exists c e, c ∈ candidates agent_name /\ e ∈ kb_get kb c /\ ans = a e.
Proof.
  unfold best_kb_match. destruct message as [|ch message]; [discriminate|].
  change (negb (truthy (String ch message))) with false. cbv iota.
  set (mn := lower (strip (String ch message))).
  intros H. split; [discriminate|].
  assert (He : exists e, e ∈ entries kb (final_candidates agent_name) /\ ans = a e).
  { destruct (search_spec ratio kb mn (final_candidates agent_name))
      as [(pre & b & post & Hes & _ & _ & _ & Hs) | [_ Hs]].
    - rewrite Hs in H. injection H as <-. exists b. split; [|reflexivity].
      rewrite Hes. apply elem_of_app. right. left.
    - rewrite H in Hs. destruct Hs as (pre & b & post & Hes & -> & _).
      exists b. split; [|reflexivity].
      rewrite Hes. apply elem_of_app. right. left. }
  destruct He as (e & He & ->).
  apply entries_elem in He as (c & Hc & He).
  exists c, e. split; [|split; [exact He | reflexivity]].
  now apply unique_subset in Hc.
Qed.

Lemma best_kb_match_answers_from_kb_witness :
  "How can I start?" <> "" /\
  exists c e,
    c ∈ candidates "OrientationAgent" /\ e ∈ kb_get LOCAL_KB c /\
    "To start: login to your LMS dashboard → open the Orientation module → complete lessons and the short quiz. If you can't find it, provide your username."
    = a e.
Proof.
  apply (best_kb_match_answers_from_kb Difflib.ratio LOCAL_KB "OrientationAgent"
           "How can I start?").
  vm_compute. reflexivity.
Defined.

End BestMatchMore.

(** ** evaluation.py *)

Module EvaluationFacts.
Import PyStr Evaluation.
Import PyStrFacts.

Lemma flush_nonempty (cur : list ascii) (t : string) : t ∈ flush cur -> t <> "".
Proof.
  destruct cur as [|c cur]; simpl; intros H; [inversion H|].
  apply list_elem_of_singleton in H as ->.
  intros E. apply (f_equal to_list) in E. rewrite to_of_list in E.
  apply (f_equal (@length ascii)) in E. rewrite length_app in E. simpl in E. lia.
Qed.

(** The words [split] gives are never empty. *)
Lemma split_nonempty (s : string) (t : string) : t ∈ split s -> t <> "".
Proof.
  unfold split. generalize (@nil ascii).
  induction s as [|c s IH]; intros cur; simpl.
  - apply flush_nonempty.
  - destruct (is_space c); [|apply IH].
    intros H. apply elem_of_app in H as [H | H]; [now apply flush_nonempty in H | eauto].
Qed.

Lemma contains_in_empty (t : string) : t <> "" -> contains t "" = false.
Proof. destruct t; [contradiction | reflexivity]. Qed.

(** X24. The rubric's total is the sum of its three parts, which are 0
    or 40 for relevance, 0 or 25 for correctness and 0 or 15 for
    clarity: no response scores more than 80. *)
Theorem evaluate_agent_response_bounds (prompt response : string) :
  let r := evaluate_agent_response prompt response in
  total r = relevance r + correctness r + clarity r /\
  (relevance r = 0 \/ relevance r = 40) /\
  (correctness r = 0 \/ correctness r = 25) /\
  (clarity r = 0 \/ clarity r = 15) /\
  total r <= 80.
Proof.
  unfold evaluate_agent_response. cbv zeta. cbn [total relevance correctness clarity].
  repeat match goal with
         | |- context [if ?c then _ else _] => destruct c
         end; repeat split; auto; lia.
Qed.

(** X25. An empty response scores 0 on every part, whatever the
    prompt. *)
Theorem evaluate_empty_response (prompt : string) :
  evaluate_agent_response prompt "" = Result 0 0 0 0.
Proof.
  unfold evaluate_agent_response. cbv zeta.
  change (lower "") with "". change (split "") with (@nil string).
  assert (E : existsb (fun tok => contains tok "") (take 3 (split (lower prompt)))
              = false).
  { apply not_true_is_false. intros H.
    apply GenericFacts.existsb_elem_of in H as (tok & Hin & Hc).
    apply elem_of_take in Hin as (i & Hin & _).
    apply list_elem_of_lookup_2 in Hin. apply split_nonempty in Hin.
    rewrite (contains_in_empty tok Hin) in Hc. discriminate. }
  rewrite E. change (contains "reset" "") with false. rewrite andb_false_r.
  reflexivity.
Qed.

End EvaluationFacts.

(** ** tools.py: the FAQ search stub *)

Module ToolsFacts.
Import PyStr Tools.
Import PyStrFacts.

Lemma score_loop_range (qtokens : list string) (table : list (string * string)) :
  forall bs ba,
    match score_loop qtokens table bs ba with
    | inl v => v ∈ table.*2
    | inr (_, Some v) => v ∈ table.*2 \/ ba = Some v
    | inr (_, None) => True
    end.
Proof.
  induction table as [|[k v] rest IH]; intros bs ba; simpl.
  - destruct ba; auto.
  - destruct (token_set (_normalize k)) as [|t ts].
    + specialize (IH bs ba).
      destruct (score_loop qtokens rest bs ba) as [w | [s [w|]]]; auto.
      * now right.
      * destruct IH; [left; now right | now right].
    + match goal with
      | |- context [Qgt_bool ?x bs] => destruct (Qgt_bool x bs); destruct (Qeq_bool x 1)
      end; try (now left).
      * specialize (IH (Z.of_nat (overlap qtokens (t :: ts))
                        # Pos.of_nat (Nat.max (length (t :: ts)) 1))%Q (Some v)).
        destruct (score_loop qtokens rest _ (Some v)) as [w | [s [w|]]]; auto.
        -- now right.
        -- left. destruct IH as [IH | [= ->]]; [now right | left].
      * specialize (IH bs ba).
        destruct (score_loop qtokens rest bs ba) as [w | [s [w|]]]; auto.
        -- now right.
        -- destruct IH; [left; now right | now right].
Qed.

Lemma substring_loop_range (qnorm : string) (table : list (string * string))
  (v : string) :
  substring_loop qnorm table = Some v -> v ∈ table.*2.
Proof.
  induction table as [|[k w] rest IH]; simpl; [discriminate|].
  destruct (contains (_normalize k) qnorm).
  - intros [= ->]. left.
  - intros H. right. auto.
Qed.

(** X26. [google_search] never returns anything but one of the three
    canned answers of its table or one of its two fixed messages. *)
Theorem google_search_range (query : string) :
  google_search query ∈
    "No query provided."
    :: "No direct FAQ hit. Try specifics or provide username."
    :: faqs.*2.
Proof.
  unfold google_search.
  destruct (negb (truthy (_normalize query))); [left|].
  assert (Hsub : default "No direct FAQ hit. Try specifics or provide username."
                         (substring_loop (_normalize query) faqs)
                 ∈ "No query provided."
                   :: "No direct FAQ hit. Try specifics or provide username."
                   :: faqs.*2).
  { destruct (substring_loop (_normalize query) faqs) as [v|] eqn:E; simpl.
    - right. right. now apply substring_loop_range in E.
    - right. left. }
  pose proof (score_loop_range (token_set (_normalize query)) faqs 0 None) as H.
  destruct (score_loop (token_set (_normalize query)) faqs 0 None)
    as [v | [s [v|]]].
  - right. now right.
  - destruct (Qle_bool (1 # 2) s && truthy v); [|exact Hsub].
    destruct H as [H | H]; [right; now right | discriminate H].
  - exact Hsub.
Qed.

Lemma is_word_lower (c : ascii) : is_word (lower_char c) = is_word c.
Proof.
  destruct c as [b0 b1 b2 b3 b4 b5 b6 b7];
    destruct b0, b1, b2, b3, b4, b5, b6, b7; reflexivity.
Qed.

Lemma sub_spaces_all_space (s : string) :
  forallb is_space (to_list s) = true ->
  sub_spaces_go true s = "" /\ (sub_spaces_go false s = "" \/ sub_spaces_go false s = " ").
Proof.
  induction s as [|c s IH]; simpl; intros H; [auto|].
  apply andb_true_iff in H as [Hc Hs]. rewrite Hc.
  destruct (IH Hs) as [IH1 _]. rewrite IH1. split; [reflexivity | now right].
Qed.

Lemma normalize_no_words (s : string) :
  forallb (fun c => negb (is_word c)) (to_list s) = true -> _normalize s = "".
Proof.
  intros H. unfold _normalize, sub_spaces.
  assert (Hsp : forallb is_space (to_list (sub_nonword (lower s))) = true).
  { induction s as [|c s IH]; simpl in *; [reflexivity|].
    apply andb_true_iff in H as [Hc Hs]. rewrite (IH Hs), andb_true_r.
    rewrite is_word_lower. apply negb_true_iff in Hc. rewrite Hc. simpl.
    now destruct (is_space (lower_char c)) eqn:E. }
  destruct (sub_spaces_all_space _ Hsp) as [_ [-> | ->]]; reflexivity.
Qed.

(** X27. A query without a single word character (empty, or spaces and
    punctuation only) is answered "No query provided.". *)
Theorem google_search_no_words (query : string) :
  forallb (fun c => negb (is_word c)) (to_list query) = true ->
  google_search query = "No query provided.".
Proof.
  intros H. unfold google_search. now rewrite (normalize_no_words _ H).
Qed.

Lemma google_search_no_words_witness :
  google_search " ?!... " = "No query provided.".
Proof. apply google_search_no_words. reflexivity. Defined.

(** *** Full overlap *)

Lemma overlap_full (q k : list string) :
  NoDup q -> NoDup k ->
  (overlap q k = length k <-> forall t, t ∈ k -> t ∈ q).
Proof.
  intros Hq Hk. unfold overlap.
  assert (Hsub : filter (λ tok, tok ∈ k) q ⊆+ k).
  { apply NoDup_submseteq; [now apply NoDup_filter|].
    intros x Hx. now apply list_elem_of_filter in Hx as [Hx _]. }
  split.
  - intros Hlen t Ht.
    assert (Hp : filter (λ tok, tok ∈ k) q ≡ₚ k)
      by (apply submseteq_length_Permutation; [exact Hsub | lia]).
    rewrite <- Hp in Ht. now apply list_elem_of_filter in Ht as [_ Ht].
  - intros Hall.
    assert (Hsup : k ⊆+ filter (λ tok, tok ∈ k) q).
    { apply NoDup_submseteq; [exact Hk|].
      intros x Hx. apply list_elem_of_filter. auto. }
    apply submseteq_length in Hsub, Hsup. lia.
Qed.

Lemma score_one (n m : nat) :
  1 <= m ->
  Qeq_bool (Z.of_nat n # Pos.of_nat (Nat.max m 1)) 1 = true <-> n = m.
Proof.
  intros Hm. rewrite Qeq_bool_iff. unfold Qeq. simpl.
  replace (Nat.max m 1) with m by lia.
  rewrite Z.mul_1_r, Z.mul_1_l, <- positive_nat_Z, Nat2Pos.id by lia. lia.
Qed.

Lemma token_set_NoDup (s : string) : NoDup (token_set s).
Proof. apply NoDup_remove_dups. Qed.

Lemma covers_score (qtokens : list string) (k : string) :
  NoDup qtokens ->
  token_set (_normalize k) <> [] ->
  (Qeq_bool (Z.of_nat (overlap qtokens (token_set (_normalize k)))
             # Pos.of_nat (Nat.max (length (token_set (_normalize k))) 1)) 1 = true
   <-> covers qtokens k).
Proof.
  intros Hq Hne. rewrite score_one.
  - rewrite (overlap_full _ _ Hq (token_set_NoDup _)). unfold covers. tauto.
  - destruct (token_set (_normalize k)); [contradiction | simpl; lia].
Qed.

Lemma score_loop_full (qtokens : list string) (k v : string)
  (post : list (string * string)) :
  NoDup qtokens -> covers qtokens k ->
  forall pre bs ba,
    (forall k' v', (k', v') ∈ pre -> ~ covers qtokens k') ->
    score_loop qtokens (pre ++ (k, v) :: post) bs ba = inl v.
Proof.
  intros Hq Hk. induction pre as [|[k' v'] pre IH]; intros bs ba Hpre.
  - cbn [app score_loop].
    pose proof (proj2 (covers_score qtokens k Hq (proj1 Hk)) Hk) as E.
    pose proof (proj1 Hk) as Hne.
    destruct (token_set (_normalize k)) as [|t ts]; [contradiction|].
    rewrite E. now destruct (Qgt_bool _ bs).
  - cbn [app score_loop].
    assert (Hn : ~ covers qtokens k') by (apply (Hpre k' v'); left).
    assert (IH' : forall bs ba, score_loop qtokens (pre ++ (k, v) :: post) bs ba = inl v).
    { intros bs' ba'. apply IH. intros k2 v2 H2. apply (Hpre k2 v2). now right. }
    destruct (token_set (_normalize k')) as [|t ts] eqn:Et; [apply IH'|].
    assert (E : Qeq_bool (Z.of_nat (overlap qtokens (t :: ts))
                          # Pos.of_nat (Nat.max (length (t :: ts)) 1)) 1 = false).
    { apply not_true_is_false. intros E. apply Hn.
      rewrite <- Et in E. apply covers_score in E; [exact E | exact Hq |].
      rewrite Et. discriminate. }
    rewrite E. destruct (Qgt_bool _ bs); apply IH'.
Qed.

(** X28. A query that holds every word of a key of the FAQ table, and
    not every word of any key before it, gets that key's answer,
    whatever else it holds and whatever its case and punctuation. *)
Theorem google_search_full_overlap
  (query k v : string) (pre post : list (string * string)) :
  faqs = pre ++ (k, v) :: post ->
  covers (token_set (_normalize query)) k ->
  (forall k' v', (k', v') ∈ pre -> ~ covers (token_set (_normalize query)) k') ->
  google_search query = v.
Proof.
  intros Hf Hk Hpre. unfold google_search.
  assert (Ht : truthy (_normalize query) = true).
  { destruct Hk as [Hne Hall].
    destruct (token_set (_normalize k)) as [|t ts]; [contradiction|].
    specialize (Hall t ltac:(left)).
    destruct (_normalize query); [inversion Hall | reflexivity]. }
  rewrite Ht, Hf. simpl.
  now rewrite (score_loop_full _ k v post (token_set_NoDup _) Hk pre).
Qed.

Lemma google_search_full_overlap_witness :
  google_search "How do I LOGIN, and how to do it?"
  = "Use your college username and password; reset via the portal if needed.".
Proof.
  apply (google_search_full_overlap _ "how to login" _
           [("how to take exam", "Open LockDown Browser, go to module, click Start Exam.");
            ("ms365", "Sign in at portal.office.com using your college email.")] []).
  - reflexivity.
  - split; [vm_compute; discriminate|].
    intros t Ht. apply (proj1 (bool_decide_eq_true _)).
    vm_compute in Ht.
    repeat (apply elem_of_cons in Ht as [-> | Ht]; [vm_compute; reflexivity|]).
    inversion Ht.
  - intros k' v' Hin [_ Hc].
    apply elem_of_cons in Hin as [[= -> ->] | Hin].
    + specialize (Hc "exam" ltac:(vm_compute; do 3 right; left)).
      apply (proj2 (bool_decide_eq_true _)) in Hc. vm_compute in Hc.
      discriminate Hc.
    + apply list_elem_of_singleton in Hin as [= -> ->].
      specialize (Hc "ms365" ltac:(vm_compute; left)).
      apply (proj2 (bool_decide_eq_true _)) in Hc. vm_compute in Hc.
      discriminate Hc.
Defined.

End ToolsFacts.
